(** * The data-sources panel of the marimo frontend

    A shallow embedding of
    [frontend/src/components/datasources/datasources.tsx]: the two derived
    atoms ([sortedTablesAtom], [connectionsAtom]), the per-node React state
    of the tree ([DatabaseItem], [SchemaItem], [TableList],
    [DatasetTableItem], [Engine]) and the snippet generator
    ([handleAddTable]/[getCode]). *)

From Stdlib Require Import ZArith List String Ascii Bool Lia.
From Stdlib Require Import Permutation Sorted.
From stdpp Require Import gmap strings.
Import ListNotations.

Local Open Scope string_scope.
Local Open Scope list_scope.
Local Open Scope Z_scope.

(** ** JavaScript values and library functions used by the panel *)

Module JS.

(** An optional, nullable field ([x?: T | null]). *)
Inductive nullable (A : Type) : Type :=
| Undefined
| Null
| Val (a : A).
Arguments Undefined {A}.
Arguments Null {A}.
Arguments Val {A} a.

(** Truthiness of a string-valued field: [undefined], [null] and the empty
    string are falsy. *)
Definition truthy (v : nullable string) : bool :=
  match v with
  | Val s => negb (String.eqb s "")
  | _ => false
  end.

(** A value interpolated in a template literal. *)
Definition interpolate (v : nullable string) : string :=
  match v with
  | Undefined => "undefined"
  | Null => "null"
  | Val s => s
  end.

(** [Array.prototype.indexOf] on an array of strings; the searched value is
    [None] when it is [undefined] (an out-of-range read such as
    [declaredBy[0]] on an empty array), which equals no string. *)
Fixpoint indexOf_from (i : Z) (l : list string) (x : string) : Z :=
  match l with
  | [] => -1
  | y :: l' => if String.eqb y x then i else indexOf_from (i + 1) l' x
  end.

Definition indexOf (l : list string) (x : option string) : Z :=
  match x with
  | None => -1
  | Some s => indexOf_from 0 l s
  end.

(** lodash's [sortBy] with a numeric iteratee: a stable ascending sort.
    lodash is an external library; its contract (ascending by the
    iteratee's value, equal values in their original order) is realised here by
    insertion from the right, each element going in front of the first one
    whose key is not smaller. *)
Section SortBy.
Context {A : Type} (iteratee : A -> Z).

Fixpoint insertBy (x : A) (l : list A) : list A :=
  match l with
  | [] => [x]
  | y :: l' =>
      if iteratee x <=? iteratee y then x :: y :: l'
      else y :: insertBy x l'
  end.

Definition sortBy (l : list A) : list A := fold_right insertBy [] l.

Definition keyIs (k : Z) (a : A) : bool := iteratee a =? k.

Definition keyLe (a b : A) : Prop := iteratee a <= iteratee b.

End SortBy.

End JS.

(** ** Data model ([core/kernel/messages], [core/variables],
       [core/datasets/data-source-connections]) *)

Import JS.

Abbreviation CellId := string.
Abbreviation VariableName := string.

Record DataTableColumn : Type := {
  column_name : string;
  column_type : string;
  column_external_type : string
}.

(** A table, with the fields the panel's logic reads; [source_type] is the
    string the kernel sent, of which the code handles ["local"], ["duckdb"],
    ["connection"] and ["catalog"]. *)
Record DataTable : Type := {
  table_name : string;
  source_type : string;
  table_engine : nullable string;
  variable_name : nullable VariableName;
  table_columns : list DataTableColumn
}.

Record DatabaseSchema : Type := {
  schema_name : string;
  schema_tables : list DataTable
}.

Record Database : Type := {
  database_name : string;
  database_schemas : list DatabaseSchema
}.

Record DataSourceConnection : Type := {
  connection_name : string;
  connection_dialect : string;
  connection_databases : list Database;
  default_database : nullable string;
  default_schema : nullable string
}.

Record NotebookVariable : Type := {
  var_name : VariableName;
  declaredBy : list CellId
}.

Record SQLTableContext : Type := {
  ctx_engine : string;
  ctx_database : string;
  ctx_schema : string;
  ctx_defaultSchema : nullable string;
  ctx_defaultDatabase : nullable string
}.

(** ** [sortedTablesAtom]: in-memory tables in declaration order *)

Module SortedTables.

(** The iteratee handed to [sortBy]. [variables] is [Object.values] of the
    variables record, [inOrderIds] the notebook's cell order. *)
Definition iteratee (variables : list NotebookVariable)
    (inOrderIds : list CellId) (table : DataTable) : Z :=
  if negb (truthy (variable_name table)) then -1
  else
    match
      List.find
        (fun v => match variable_name table with
                  | Val n => String.eqb (var_name v) n
                  | _ => false
                  end)
        variables
    with
    | None => 0
    | Some variable =>
        let index := indexOf inOrderIds (hd_error (declaredBy variable)) in
        if index =? -1 then 0 else index
    end.

Definition sortedTablesAtom (tables : list DataTable)
    (variables : list NotebookVariable) (inOrderIds : list CellId)
    : list DataTable :=
  sortBy (iteratee variables inOrderIds) tables.

(** The notions the order of the tables is stated with. *)

(** The table names no declaring variable. *)
Definition noVariable (table : DataTable) : bool :=
  negb (truthy (variable_name table)).

(** The variable a table names, resolved by name among the variables. *)
Definition resolves (variables : list NotebookVariable) (table : DataTable)
    (v : NotebookVariable) : Prop :=
  exists n before after,
    variable_name table = Val n /\ n <> ""%string /\
    variables = before ++ v :: after /\
    var_name v = n /\
    Forall (fun u => var_name u <> n) before.

(** The variable a table names is not among the variables. *)
Definition unresolved (variables : list NotebookVariable)
    (table : DataTable) : Prop :=
  exists n,
    variable_name table = Val n /\ n <> ""%string /\
    Forall (fun u => var_name u <> n) variables.

(** The declaring cell of [v] stands at position [i] of the cell order. *)
Definition declaredAt (inOrderIds : list CellId) (v : NotebookVariable)
    (i : nat) : Prop :=
  exists c,
    hd_error (declaredBy v) = Some c /\
    nth_error inOrderIds i = Some c /\
    ~ In c (firstn i inOrderIds).

(** The position of the declaring cell is unknown: the variable has no
    declaring cell, or that cell is not in the cell order. *)
Definition positionUnknown (inOrderIds : list CellId)
    (v : NotebookVariable) : Prop :=
  match hd_error (declaredBy v) with
  | None => True
  | Some c => ~ In c inOrderIds
  end.

(** The tables of the spec's example: [A] is declared by [x] in the cell at
    position 2, [B] names no variable, [C] is declared by [y] in the cell
    at position 1. *)
Definition mkTable (n : string) (v : nullable VariableName) : DataTable :=
  {| table_name := n; source_type := "local"; table_engine := Undefined;
     variable_name := v; table_columns := [] |}.

Definition exampleTables : list DataTable :=
  [mkTable "A" (Val "x"); mkTable "B" Undefined; mkTable "C" (Val "y")].

Definition exampleVariables : list NotebookVariable :=
  [ {| var_name := "x"; declaredBy := ["cell2"%string] |};
    {| var_name := "y"; declaredBy := ["cell1"%string] |} ].

Definition exampleCellIds : list CellId :=
  ["cell0"; "cell1"; "cell2"]%string.

End SortedTables.

(** ** [connectionsAtom]: the visible connections *)

Module Connections.

(** A JavaScript [Map] with string keys: its entries in insertion order,
    which is the order [values()] iterates in. Keys are unique in a [Map]. *)
Abbreviation JSMap := (list (string * DataSourceConnection)).

Fixpoint map_get (k : string) (m : JSMap) : option DataSourceConnection :=
  match m with
  | [] => None
  | (k', v) :: m' => if String.eqb k' k then Some v else map_get k m'
  end.

(** [set] keeps the position of a key that is present and appends a new
    one. *)
Fixpoint map_set (k : string) (v : DataSourceConnection) (m : JSMap) : JSMap :=
  match m with
  | [] => [(k, v)]
  | (k', v') :: m' =>
      if String.eqb k' k then (k, v) :: m' else (k', v') :: map_set k v m'
  end.

Definition map_delete (k : string) (m : JSMap) : JSMap :=
  List.filter (fun e => negb (String.eqb (fst e) k)) m.

Definition map_values (m : JSMap) : list DataSourceConnection :=
  List.map snd m.

(** [new Map(iterable)]: the entries are set one after the other. *)
Definition map_of_entries (entries : list (string * DataSourceConnection))
    : JSMap :=
  fold_left (fun m e => map_set (fst e) (snd e) m) entries [].

(** The store of [Map] objects, by reference. The map held by
    [dataConnectionsMapAtom] is shared with the rest of the application. *)
Abbreviation ref := nat.
Abbreviation store := (gmap nat (list (string * DataSourceConnection))).

(** Store-passing computations; [None] is a read through a dangling
    reference. *)
Definition M (A : Type) : Type := store -> option (A * store).

Definition ret {A : Type} (a : A) : M A := fun h => Some (a, h).

Definition bind {A B : Type} (c : M A) (k : A -> M B) : M B :=
  fun h =>
    match c h with
    | Some (a, h') => k a h'
    | None => None
    end.

Notation "x <- c ;; k" := (bind c (fun x => k))
  (at level 100, c at next level, right associativity).
Notation "c ;;; k" := (bind c (fun _ => k))
  (at level 100, right associativity).

(** [new Map(entries)] allocates a fresh object. *)
Definition newMap (entries : list (string * DataSourceConnection)) : M ref :=
  fun h =>
    let r := fresh (dom h) in
    Some (r, <[r := map_of_entries entries]> h).

Definition entriesM (r : ref) : M (list (string * DataSourceConnection)) :=
  fun h =>
    match h !! r with
    | Some m => Some (m, h)
    | None => None
    end.

Definition getM (r : ref) (k : string) : M (option DataSourceConnection) :=
  fun h =>
    match h !! r with
    | Some m => Some (map_get k m, h)
    | None => None
    end.

Definition deleteM (r : ref) (k : string) : M unit :=
  fun h =>
    match h !! r with
    | Some m => Some (tt, <[r := map_delete k m]> h)
    | None => None
    end.

Definition valuesM (r : ref) : M (list DataSourceConnection) :=
  fun h =>
    match h !! r with
    | Some m => Some (map_values m, h)
    | None => None
    end.

(** [for (const x of xs) body]. *)
Fixpoint forOf {A : Type} (xs : list A) (body : A -> M unit) : M unit :=
  match xs with
  | [] => ret tt
  | x :: xs' => body x ;;; forOf xs' body
  end.

Section ConnectionsAtom.
(** [INTERNAL_SQL_ENGINES] of [core/datasets/engines], a [Set] of engine
    names whose declaration is not part of the sources: its elements in
    iteration order. *)
Variable INTERNAL_SQL_ENGINES : list string.

Definition set_has (x : string) : bool :=
  existsb (String.eqb x) INTERNAL_SQL_ENGINES.

Definition connectionIteratee (connection : DataSourceConnection) : Z :=
  if set_has (connection_name connection) then 1 else 0.

(** The atom's read function; [dataConnectionsMapAtom] is the reference
    the store atom holds. *)
Definition connectionsAtomM (dataConnectionsMapAtom : ref)
    : M (list DataSourceConnection) :=
  shared <- entriesM dataConnectionsMapAtom ;;
  dataConnections <- newMap shared ;;
  forOf INTERNAL_SQL_ENGINES (fun engine =>
    connection <- getM dataConnections engine ;;
    match connection with
    | Some c =>
        if (length (connection_databases c) =? 0)%nat
        then deleteM dataConnections engine
        else ret tt
    | None => ret tt
    end) ;;;
  values <- valuesM dataConnections ;;
  ret (sortBy connectionIteratee values).

(** The atom's value for a connections map [m], read off a store that
    holds [m] alone. *)
Definition connectionsAtom (m : JSMap) : list DataSourceConnection :=
  match connectionsAtomM 0%nat {[ 0%nat := m ]} with
  | Some (visible, _) => visible
  | None => []
  end.

End ConnectionsAtom.

(** What the pruning loop of the atom leaves of a map: one step per internal
    engine. *)
Definition noDatabases (c : DataSourceConnection) : bool :=
  (length (connection_databases c) =? 0)%nat.

Definition pruneStep (m : JSMap) (engine : string) : JSMap :=
  match map_get engine m with
  | Some c => if noDatabases c then map_delete engine m else m
  | None => m
  end.

Definition prune (internal : list string) (m : JSMap) : JSMap :=
  fold_left pruneStep internal m.

(** An entry the loop deletes. *)
Definition pruned (internal : list string)
    (e : string * DataSourceConnection) : bool :=
  existsb (String.eqb (fst e)) internal && noDatabases (snd e).

(** Internal engines, and those of them the list hides. *)
Definition isInternal (internal : list string) (c : DataSourceConnection)
    : bool :=
  set_has internal (connection_name c).

Definition hidden (internal : list string) (c : DataSourceConnection) : bool :=
  isInternal internal c && noDatabases c.

(** A connections map is keyed by connection name, each name once. *)
Definition keyedByName (m : JSMap) : Prop :=
  List.NoDup (List.map fst m) /\
  Forall (fun e => fst e = connection_name (snd e)) m.

(** The map that holds the connections of a list under their names. *)
Definition mapOfConnections (cs : list DataSourceConnection) : JSMap :=
  map_of_entries (List.map (fun c => (connection_name c, c)) cs).

(** A connections map to run the atom on: two user-defined connections and
    two internal engines, one of which has no database. *)
Definition exampleInternal : list string :=
  ["__marimo_duckdb"; "__marimo_clickhouse"]%string.

Definition mkConnection (n : string) (dbs : list Database)
    : DataSourceConnection :=
  {| connection_name := n; connection_dialect := "sql";
     connection_databases := dbs;
     default_database := Undefined; default_schema := Undefined |}.

Definition mainDatabase : Database :=
  {| database_name := "main"; database_schemas := [] |}.

Definition exampleMap : JSMap :=
  [ ("__marimo_duckdb"%string, mkConnection "__marimo_duckdb" [mainDatabase]);
    ("snowflake"%string, mkConnection "snowflake" []);
    ("__marimo_clickhouse"%string, mkConnection "__marimo_clickhouse" []);
    ("pg"%string, mkConnection "pg" [mainDatabase]) ].

End Connections.

(** ** [handleAddTable]/[getCode]: the snippet for a table *)

Module Snippet.

(** How a call ends: it returns a value or throws. *)
Inductive outcome (A : Type) : Type :=
| Returned (a : A)
| Thrown (error : string).
Arguments Returned {A} a.
Arguments Thrown {A} error.

Definition andThen {A B : Type} (c : outcome A) (k : A -> outcome B)
    : outcome B :=
  match c with
  | Returned a => k a
  | Thrown e => Thrown e
  end.

(** The double-quote character of the template literal. *)
Definition dquote : string := String (ascii_of_nat 34) EmptyString.

(** The source kinds [getCode] has a branch for. *)
Definition handledKinds : list string :=
  ["catalog"; "local"; "duckdb"; "connection"]%string.

Definition handled (kind : string) : bool :=
  existsb (String.eqb kind) handledKinds.

Section GetCode.
(** [sqlCode] of [./utils] and [logNever] of [utils/assertNever] are not
    part of the sources: [sqlCode] builds the query text from the table, the
    column name and the context; [logNever] is called on the unexpected
    value and returns or throws. *)
Variable sqlCode : DataTable -> string -> option SQLTableContext -> string.
Variable logNever : string -> outcome unit.

Definition getCode (table : DataTable)
    (sqlTableContext : option SQLTableContext) : outcome string :=
  if String.eqb (source_type table) "catalog" then
    let identifier :=
      match sqlTableContext with
      | Some ctx =>
          if negb (String.eqb (ctx_database ctx) "")
          then ctx_database ctx +:+ "." +:+ table_name table
          else table_name table
      | None => table_name table
      end in
    Returned (interpolate (table_engine table) +:+ ".load_table(" +:+ dquote
              +:+ identifier +:+ dquote +:+ ")")
  else
    match sqlTableContext with
    | Some ctx => Returned (sqlCode table "*" (Some ctx))
    | None =>
        if String.eqb (source_type table) "local" then
          Returned ("mo.ui.table(" +:+ table_name table +:+ ")")
        else if String.eqb (source_type table) "duckdb"
                || String.eqb (source_type table) "connection" then
          Returned (sqlCode table "*" None)
        else
          andThen (logNever (source_type table)) (fun _ => Returned "")
    end.

End GetCode.

(** Values to run [getCode] on. The query builder stands in for [sqlCode];
    the two [logNever]s are one that only logs and one that asserts. *)
Definition selectAll (table : DataTable) (columnName : string)
    (ctx : option SQLTableContext) : string :=
  "SELECT " +:+ columnName +:+ " FROM " +:+ table_name table.

Definition logOnly (x : string) : outcome unit := Returned tt.

Definition assertNever (x : string) : outcome unit :=
  Thrown ("Unexpected object: " +:+ x).

Definition tableOfKind (kind name : string) : DataTable :=
  {| table_name := name; source_type := kind; table_engine := Val "engine";
     variable_name := Undefined; table_columns := [] |}.

Definition contextOf (database : string) : SQLTableContext :=
  {| ctx_engine := "engine"; ctx_database := database; ctx_schema := "public";
     ctx_defaultSchema := Undefined; ctx_defaultDatabase := Undefined |}.

End Snippet.

(** ** [DatabaseItem] and [SchemaItem]: expansion state *)

Module Expansion.

(** The two components declare the same state ([isExpanded], [isSelected],
    both initially [false]), the same effect on [hasSearch] and the same
    [onSelect]. [effectDeps] is the dependency array of the effect at the
    last commit, [None] before the first one. *)
Record ItemState : Type := {
  isExpanded : bool;
  isSelected : bool;
  effectDeps : option bool
}.

Definition mount : ItemState :=
  {| isExpanded := false; isSelected := false; effectDeps := None |}.

(** [useEffect(f, deps)] runs [f] after the first commit and after each
    commit whose [deps] differ from the previous ones. *)
Definition depsChanged (previous : option bool) (hasSearch : bool) : bool :=
  match previous with
  | None => true
  | Some b => negb (Bool.eqb b hasSearch)
  end.

(** A render with the prop [hasSearch], with its effect
    [setIsExpanded(hasSearch)]. *)
Definition render (hasSearch : bool) (s : ItemState) : ItemState :=
  if depsChanged (effectDeps s) hasSearch then
    {| isExpanded := hasSearch;
       isSelected := isSelected s;
       effectDeps := Some hasSearch |}
  else s.

Definition onSelect (s : ItemState) : ItemState :=
  {| isExpanded := negb (isExpanded s);
     isSelected := negb (isSelected s);
     effectDeps := effectDeps s |}.

Inductive event : Type :=
| Render (hasSearch : bool)
| Select.

Definition step (s : ItemState) (e : event) : ItemState :=
  match e with
  | Render hasSearch => render hasSearch s
  | Select => onSelect s
  end.

Definition run (history : list event) (s : ItemState) : ItemState :=
  fold_left step history s.


End Expansion.

(** ** [TableList] and [DatasetTableItem]: fetching metadata once *)

Module FetchCache.

(** The rendering of a node. *)
Inductive view : Type :=
| LoadingState (message : string)
| ErrorState (error : string)
| EmptyState (content : string)
| Rows.

(** Modelled from the spec: [useAsyncData] of [hooks/useAsyncData] is not
    part of the sources. As an effect with a dependency array it runs the
    loader after the first commit and after each commit whose dependencies
    differ from those of the previous run, objects being compared by
    reference; the node is pending while a loader run is suspended at its
    request, and a loader run that throws leaves its message in [error]
    (spec 4.3: loading from the moment a fetch is requested until the merge
    completes or fails, an error indicator on failure). *)
Definition loaderRuns {D : Type} `{EqDecision D}
    (previous : option D) (deps : D) : bool :=
  bool_decide (previous <> Some deps).

(** *** [TableList] *)

Module TableList.

Record TableListResponse : Type := {
  resp_tables : option (list DataTable)
}.

(** The argument of [PreviewSQLTableList.request]. *)
Record TableListRequest : Type := {
  req_engine : string;
  req_database : string;
  req_schema : string
}.

(** [sqlTableContext] is an object: it comes with its reference. *)
Record Props : Type := {
  tables : list DataTable;
  sqlTableContext : option (nat * SQLTableContext);
  searchValue : nullable string
}.

(** The state of a node: its two [useState] cells, the state of
    [useAsyncData] ([loaderDeps], [awaiting], [error]) and the calls the
    node has made so far, latest first ([requests] to
    [PreviewSQLTableList.request], [added] to [addTableList]). *)
Record State : Type := {
  tablesRequested : bool;
  tablesLoading : bool;
  loaderDeps : option (nat * option nat * bool);
  awaiting : option SQLTableContext;
  error : option string;
  requests : list TableListRequest;
  added : list (list DataTable * SQLTableContext)
}.

Definition mount : State :=
  {| tablesRequested := false; tablesLoading := false; loaderDeps := None;
     awaiting := None; error := None; requests := []; added := [] |}.

Definition requestOf (ctx : SQLTableContext) : TableListRequest :=
  {| req_engine := ctx_engine ctx;
     req_database := ctx_database ctx;
     req_schema := ctx_schema ctx |}.

(** The loader, up to its [await]. *)
Definition loader (p : Props) (s : State) : State :=
  match sqlTableContext p with
  | Some (_, ctx) =>
      if (length (tables p) =? 0)%nat && negb (tablesRequested s) then
        {| tablesRequested := true;
           tablesLoading := true;
           loaderDeps := loaderDeps s;
           awaiting := Some ctx;
           error := error s;
           requests := requestOf ctx :: requests s;
           added := added s |}
      else s
  | None => s
  end.

Definition withDeps (deps : nat * option nat * bool) (s : State) : State :=
  {| tablesRequested := tablesRequested s;
     tablesLoading := tablesLoading s;
     loaderDeps := Some deps;
     awaiting := awaiting s;
     error := error s;
     requests := requests s;
     added := added s |}.

(** A render and its commit; the dependencies are
    [[tables.length, sqlTableContext, tablesRequested]]. *)
Definition render (p : Props) (s : State) : State :=
  let deps :=
    (length (tables p), option_map fst (sqlTableContext p),
     tablesRequested s) in
  if loaderRuns (loaderDeps s) deps then withDeps deps (loader p s) else s.

(** The request resolves and the loader goes on after its [await]. *)
Definition resolve (response : option TableListResponse) (s : State) : State :=
  match awaiting s with
  | None => s
  | Some ctx =>
      match
        match response with
        | Some previewTableList => resp_tables previewTableList
        | None => None
        end
      with
      | None =>
          {| tablesRequested := tablesRequested s;
             tablesLoading := false;
             loaderDeps := loaderDeps s;
             awaiting := None;
             error := Some "No tables available"%string;
             requests := requests s;
             added := added s |}
      | Some previewTables =>
          {| tablesRequested := tablesRequested s;
             tablesLoading := false;
             loaderDeps := loaderDeps s;
             awaiting := None;
             error := error s;
             requests := requests s;
             added := (previewTables, ctx) :: added s |}
      end
  end.

(** The request itself fails: the loader throws at its [await]. *)
Definition reject (e : string) (s : State) : State :=
  match awaiting s with
  | None => s
  | Some _ =>
      {| tablesRequested := tablesRequested s;
         tablesLoading := tablesLoading s;
         loaderDeps := loaderDeps s;
         awaiting := None;
         error := Some e;
         requests := requests s;
         added := added s |}
  end.

Definition isPending (s : State) : bool :=
  match awaiting s with Some _ => true | None => false end.

(** What the node shows; [Rows] stands for the rows of the tables that
    match the search. *)
Definition show (p : Props) (s : State) : view :=
  if isPending s || tablesLoading s then LoadingState "Loading tables..."
  else
    match error s with
    | Some e => ErrorState e
    | None =>
        if (length (tables p) =? 0)%nat then EmptyState "No tables found"
        else Rows
    end.

Inductive event : Type :=
| Render (p : Props)
| Resolve (response : option TableListResponse)
| Reject (e : string).

Definition step (s : State) (e : event) : State :=
  match e with
  | Render p => render p s
  | Resolve response => resolve response s
  | Reject e => reject e s
  end.

Definition run (history : list event) (s : State) : State :=
  fold_left step history s.


(** A state of a node that has requested nothing, or one request with the
    flag set. *)
Definition tableListInv (s : State) : Prop :=
  (tablesRequested s = false /\ requests s = [] /\ awaiting s = None) \/
  (tablesRequested s = true /\ length (requests s) = 1%nat).

(** A schema node rendered before its tables are known. *)
Definition exampleContext : SQLTableContext :=
  {| ctx_engine := "pg"; ctx_database := "db"; ctx_schema := "public";
     ctx_defaultSchema := Undefined; ctx_defaultDatabase := Undefined |}.

Definition emptySchema (reference : nat) : Props :=
  {| tables := []; sqlTableContext := Some (reference, exampleContext);
     searchValue := Undefined |}.

End TableList.

(** *** [DatasetTableItem] *)

Module DatasetTableItem.

Record TableResponse : Type := {
  resp_table : option DataTable
}.

(** The argument of [PreviewSQLTable.request]. *)
Record TableRequest : Type := {
  req_engine : string;
  req_database : string;
  req_schema : string;
  req_tableName : string
}.

Record Props : Type := {
  table : DataTable;
  sqlTableContext : option (nat * SQLTableContext);
  isSearching : bool
}.

Record State : Type := {
  isExpanded : bool;
  tableDetailsRequested : bool;
  loaderDeps : option (bool * bool);
  awaiting : option SQLTableContext;
  error : option string;
  requests : list TableRequest;
  added : list (DataTable * SQLTableContext)
}.

Definition mount : State :=
  {| isExpanded := false; tableDetailsRequested := false; loaderDeps := None;
     awaiting := None; error := None; requests := []; added := [] |}.

Definition tableDetailsExist (p : Props) : bool :=
  (0 <? length (table_columns (table p)))%nat.

Definition requestOf (ctx : SQLTableContext) (t : DataTable) : TableRequest :=
  {| req_engine := ctx_engine ctx;
     req_database := ctx_database ctx;
     req_schema := ctx_schema ctx;
     req_tableName := table_name t |}.

(** The loader, up to its [await]. *)
Definition loader (p : Props) (s : State) : State :=
  match sqlTableContext p with
  | Some (_, ctx) =>
      if isExpanded s && negb (tableDetailsExist p)
         && negb (tableDetailsRequested s) then
        {| isExpanded := isExpanded s;
           tableDetailsRequested := true;
           loaderDeps := loaderDeps s;
           awaiting := Some ctx;
           error := error s;
           requests := requestOf ctx (table p) :: requests s;
           added := added s |}
      else s
  | None => s
  end.

Definition withDeps (deps : bool * bool) (s : State) : State :=
  {| isExpanded := isExpanded s;
     tableDetailsRequested := tableDetailsRequested s;
     loaderDeps := Some deps;
     awaiting := awaiting s;
     error := error s;
     requests := requests s;
     added := added s |}.

(** A render and its commit; the dependencies are
    [[isExpanded, tableDetailsExist]]. *)
Definition render (p : Props) (s : State) : State :=
  let deps := (isExpanded s, tableDetailsExist p) in
  if loaderRuns (loaderDeps s) deps then withDeps deps (loader p s) else s.

(** [onSelect]: [setIsExpanded(!isExpanded)]. *)
Definition onSelect (s : State) : State :=
  {| isExpanded := negb (isExpanded s);
     tableDetailsRequested := tableDetailsRequested s;
     loaderDeps := loaderDeps s;
     awaiting := awaiting s;
     error := error s;
     requests := requests s;
     added := added s |}.

Definition resolve (response : option TableResponse) (s : State) : State :=
  match awaiting s with
  | None => s
  | Some ctx =>
      match
        match response with
        | Some previewTable => resp_table previewTable
        | None => None
        end
      with
      | None =>
          {| isExpanded := isExpanded s;
             tableDetailsRequested := tableDetailsRequested s;
             loaderDeps := loaderDeps s;
             awaiting := None;
             error := Some "No table details available"%string;
             requests := requests s;
             added := added s |}
      | Some details =>
          {| isExpanded := isExpanded s;
             tableDetailsRequested := tableDetailsRequested s;
             loaderDeps := loaderDeps s;
             awaiting := None;
             error := error s;
             requests := requests s;
             added := (details, ctx) :: added s |}
      end
  end.

Definition reject (e : string) (s : State) : State :=
  match awaiting s with
  | None => s
  | Some _ =>
      {| isExpanded := isExpanded s;
         tableDetailsRequested := tableDetailsRequested s;
         loaderDeps := loaderDeps s;
         awaiting := None;
         error := Some e;
         requests := requests s;
         added := added s |}
  end.

Inductive event : Type :=
| Render (p : Props)
| Select
| Resolve (response : option TableResponse)
| Reject (e : string).

Definition step (s : State) (e : event) : State :=
  match e with
  | Render p => render p s
  | Select => onSelect s
  | Resolve response => resolve response s
  | Reject e => reject e s
  end.

Definition run (history : list event) (s : State) : State :=
  fold_left step history s.

(** A table node whose columns are not known yet. *)
Definition exampleContext : SQLTableContext :=
  {| ctx_engine := "pg"; ctx_database := "db"; ctx_schema := "public";
     ctx_defaultSchema := Undefined; ctx_defaultDatabase := Undefined |}.

Definition bareTable (reference : nat) : Props :=
  {| table :=
       {| table_name := "users"; source_type := "connection";
          table_engine := Val "pg"; variable_name := Undefined;
          table_columns := [] |};
     sqlTableContext := Some (reference, exampleContext);
     isSearching := false |}.

(** A state of a node that has requested nothing, or one request with the
    flag set. *)
Definition tableItemInv (s : State) : Prop :=
  (tableDetailsRequested s = false /\ requests s = [] /\ awaiting s = None) \/
  (tableDetailsRequested s = true /\ length (requests s) = 1%nat).

End DatasetTableItem.

End FetchCache.

(** ** [Engine]: the refresh button *)

Module Refresh.

(** The state of an [Engine] node and of the event loop around it: the
    [isSpinning] cell, the clock in milliseconds, the deadlines of the
    [setTimeout] callbacks not yet run, and the number of
    [previewDataSourceConnection] requests not yet settled. *)
Record State : Type := {
  isSpinning : bool;
  now : nat;
  timers : list nat;
  inFlight : nat
}.

Definition mount : State :=
  {| isSpinning := false; now := 0; timers := []; inFlight := 0 |}.

(** [handleRefreshConnection], up to its [await]. *)
Definition click (s : State) : State :=
  {| isSpinning := true;
     now := now s;
     timers := timers s;
     inFlight := S (inFlight s) |}.

(** A request resolves and its handler goes on:
    [setTimeout(() => setIsSpinning(false), 500)]. *)
Definition complete (s : State) : State :=
  match inFlight s with
  | O => s
  | S n =>
      {| isSpinning := isSpinning s;
         now := now s;
         timers := timers s ++ [(now s + 500)%nat];
         inFlight := n |}
  end.

(** A request rejects: the handler stops at its [await]. *)
Definition fail (s : State) : State :=
  match inFlight s with
  | O => s
  | S n =>
      {| isSpinning := isSpinning s;
         now := now s;
         timers := timers s;
         inFlight := n |}
  end.

(** [dt] milliseconds pass: the callbacks that are due run. *)
Definition elapse (dt : nat) (s : State) : State :=
  let t := (now s + dt)%nat in
  {| isSpinning :=
       if existsb (fun deadline => (deadline <=? t)%nat) (timers s)
       then false else isSpinning s;
     now := t;
     timers := List.filter (fun deadline => negb (deadline <=? t)%nat)
                 (timers s);
     inFlight := inFlight s |}.

Inductive event : Type :=
| Click
| Complete
| Fail
| Elapse (dt : nat).

Definition step (s : State) (e : event) : State :=
  match e with
  | Click => click s
  | Complete => complete s
  | Fail => fail s
  | Elapse dt => elapse dt s
  end.

Definition run (history : list event) (s : State) : State :=
  fold_left step history s.

End Refresh.

(** ** [DataSources] and [Engine]: what the panel shows *)

Module Panel.
Import Connections.

(** Under its label an [Engine] shows its children, the database items, or
    the empty state "No databases available". *)
Inductive EngineBody : Type :=
| DatabaseItems (databases : list Database)
| NoDatabases.

Record EngineView : Type := {
  engineName : string;
  refreshButton : bool;
  engineBody : EngineBody
}.

(** The root: the empty state of the panel, or the list with one [Engine]
    per connection, the "Python" label and the list of in-memory tables. *)
Inductive PanelView : Type :=
| PanelEmptyState
| CommandList (engines : list EngineView) (pythonLabel : bool)
    (tableList : option (list DataTable)).

Section DataSources.
(** [DUCKDB_ENGINE] of [core/datasets/engines], the name of the internal
    duckdb engine; its declaration is not part of the sources. *)
Variable DUCKDB_ENGINE : string.

Definition Engine (connection : DataSourceConnection) (hasChildren : bool)
    : EngineView :=
  let internalEngine := String.eqb (connection_name connection) DUCKDB_ENGINE in
  {| engineName :=
       if internalEngine then "In-Memory"%string
       else connection_name connection;
     refreshButton := negb internalEngine;
     engineBody :=
       if hasChildren then DatabaseItems (connection_databases connection)
       else NoDatabases |}.

(** [tables] is the value of [sortedTablesAtom], [dataConnections] that of
    [connectionsAtom]. *)
Definition DataSources (tables : list DataTable)
    (dataConnections : list DataSourceConnection) : PanelView :=
  if (length tables =? 0)%nat && (length dataConnections =? 0)%nat then
    PanelEmptyState
  else
    CommandList
      (List.map
         (fun connection =>
            Engine connection
              (0 <? length (connection_databases connection))%nat)
         dataConnections)
      ((0 <? length dataConnections)%nat && (0 <? length tables)%nat)
      (if (0 <? length tables)%nat then Some tables else None).

End DataSources.

(** The panel over the state of the application. *)
Definition panel (DUCKDB_ENGINE : string) (INTERNAL_SQL_ENGINES : list string)
    (tables : list DataTable) (variables : list NotebookVariable)
    (inOrderIds : list CellId) (dataConnectionsMap : JSMap) : PanelView :=
  DataSources DUCKDB_ENGINE
    (SortedTables.sortedTablesAtom tables variables inOrderIds)
    (connectionsAtom INTERNAL_SQL_ENGINES dataConnectionsMap).

End Panel.

(** ** States a fetching node goes through *)

Module FetchStates.
Import FetchCache.



(** A render that gives a [TableList] no reason to fetch: no SQL context,
    or tables already there. *)
Definition tableListQuiet (e : TableList.event) : Prop :=
  match e with
  | TableList.Render p =>
      TableList.sqlTableContext p = None \/ TableList.tables p <> []
  | _ => True
  end.

(** A render that gives a [DatasetTableItem] no reason to fetch: no SQL
    context, or columns already there. *)
Definition tableItemQuiet (e : DatasetTableItem.event) : Prop :=
  match e with
  | DatasetTableItem.Render p =>
      DatasetTableItem.sqlTableContext p = None \/
      DatasetTableItem.tableDetailsExist p = true
  | _ => True
  end.

End FetchStates.

(** ** What a database or schema row shows *)

Module ExpansionView.
Import Expansion.

(** The icon and the name of the row are emphasised when
    [isSelected && isExpanded]. *)
Definition highlighted (s : ItemState) : bool :=
  isSelected s && isExpanded s.

(** A history of a node all of whose renders carry [hasSearch = false]. *)
Definition searchNeverActive (history : list event) : Prop :=
  Forall (fun e => e <> Render true) history.

(** Events of a node while the search stays active. *)
Definition duringSearch (history : list event) : Prop :=
  Forall (fun e => e = Select \/ e = Render true) history.

End ExpansionView.

(** ** Time in the life of an [Engine] node *)

Module RefreshTime.
Import Refresh.

(** Time passes in several stretches. *)
Definition elapses (durations : list nat) : list event :=
  List.map Elapse durations.

Definition total (durations : list nat) : nat :=
  fold_right Nat.add 0%nat durations.

(** No request of the history failed. *)
Definition noFailure (history : list event) : Prop :=
  Forall (fun e => e <> Fail) history.

End RefreshTime.

(** ** [SchemaList] and [TableList]: the search filters *)

Module Search.

(** [String.prototype.includes]: the second string occurs in the first. *)
Fixpoint includes (s sub : string) : bool :=
  String.prefix sub s
  || match s with
     | EmptyString => false
     | String _ s' => includes s' sub
     end.

(** What a [SchemaList] renders: the empty state "No schemas available", or
    one [SchemaItem] per schema that passes the filter. *)
Inductive SchemaListView : Type :=
| NoSchemas
| SchemaItems (schemas : list DatabaseSchema).

Section Filters.
(** [String.prototype.toLowerCase]. *)
Variable toLowerCase : string -> string.

(** The test both filters apply to a table under a search value. *)
Definition nameMatches (searchValue : string) (table : DataTable) : bool :=
  includes (toLowerCase (table_name table)) (toLowerCase searchValue).

(** [filteredTables] of [TableList]. *)
Definition filteredTables (searchValue : nullable string)
    (tables : list DataTable) : list DataTable :=
  List.filter
    (fun table =>
       match searchValue with
       | Val v => if truthy searchValue then nameMatches v table else true
       | _ => true
       end)
    tables.

(** [filteredSchemas] of [SchemaList]. *)
Definition filteredSchemas (searchValue : nullable string)
    (schemas : list DatabaseSchema) : list DatabaseSchema :=
  List.filter
    (fun schema =>
       match searchValue with
       | Val v =>
           if truthy searchValue
           then existsb (nameMatches v) (schema_tables schema)
           else true
       | _ => true
       end)
    schemas.

Definition SchemaList (searchValue : nullable string)
    (schemas : list DatabaseSchema) : SchemaListView :=
  if (length schemas =? 0)%nat then NoSchemas
  else SchemaItems (filteredSchemas searchValue schemas).

End Filters.

(** A lower-casing of the letters A to Z, to run the filters with. *)
Definition asciiLower (c : ascii) : ascii :=
  let n := nat_of_ascii c in
  if (65 <=? n)%nat && (n <=? 90)%nat then ascii_of_nat (n + 32) else c.

Fixpoint lower (s : string) : string :=
  match s with
  | EmptyString => EmptyString
  | String c s' => String (asciiLower c) (lower s')
  end.

Definition usersSchema : DatabaseSchema :=
  {| schema_name := "public";
     schema_tables :=
       [ SortedTables.mkTable "Users" Undefined;
         SortedTables.mkTable "orders" Undefined ] |}.

Definition logsSchema : DatabaseSchema :=
  {| schema_name := "audit";
     schema_tables := [ SortedTables.mkTable "events" Undefined ] |}.

End Search.

(** ** [DatasetColumnItem]: column previews *)

Module ColumnItem.

(** The state of a column row: [isExpanded] and the dependency array
    [[closeAllColumns]] of its effect at the last commit. *)
Record State : Type := {
  isExpanded : bool;
  effectDeps : option bool
}.

Definition mount : State := {| isExpanded := false; effectDeps := None |}.

(** A render with the value [closeAllColumns] read from
    [closeAllColumnsAtom], and its effect:
    [if (closeAllColumns) setIsExpanded(false)]. *)
Definition render (closeAllColumns : bool) (s : State) : State :=
  if Expansion.depsChanged (effectDeps s) closeAllColumns then
    {| isExpanded := if closeAllColumns then false else isExpanded s;
       effectDeps := Some closeAllColumns |}
  else s.

Definition onSelect (s : State) : State :=
  {| isExpanded := negb (isExpanded s); effectDeps := effectDeps s |}.

Inductive event : Type :=
| Render (closeAllColumns : bool)
| Select.

Definition step (s : State) (e : event) : State :=
  match e with
  | Render closeAllColumns => render closeAllColumns s
  | Select => onSelect s
  end.

Definition run (history : list event) (s : State) : State :=
  fold_left step history s.

(** The value of [closeAllColumns] at the last render of a history. *)
Definition lastClose (history : list event) : option bool :=
  fold_left
    (fun last e => match e with Render b => Some b | Select => last end)
    history None.

(** *** The set of expanded columns *)

(** [expandedColumnsAtom] of [core/datasets/state] holds a [Set] of keys;
    the atom's declaration is not part of the sources. [Set] objects live
    in a store, and the atom holds a reference. *)
Record Atom : Type := {
  sets : gmap nat (gset string);
  expandedColumnsAtom : nat
}.

Definition columnKey (table : DataTable) (column : DataTableColumn) : string :=
  table_name table +:+ ":" +:+ column_name column.

(** The call of [setExpandedColumns] in the body of the component. For an
    expanded row the updater is [(prev) => new Set([...prev, key])]; for a
    collapsed one it deletes the key from [prev] itself and returns
    [new Set(prev)]. *)
Definition setExpandedColumns (key : string) (expanded : bool) (a : Atom)
    : option Atom :=
  match sets a !! expandedColumnsAtom a with
  | None => None
  | Some prev =>
      if expanded then
        let r := fresh (dom (sets a)) in
        Some {| sets := <[r := prev ∪ {[key]}]> (sets a);
                expandedColumnsAtom := r |}
      else
        let deleted := <[expandedColumnsAtom a := prev ∖ {[key]}]> (sets a) in
        let r := fresh (dom deleted) in
        Some {| sets := <[r := prev ∖ {[key]}]> deleted;
                expandedColumnsAtom := r |}
  end.

(** The rows of a render pass, in order: each with its table, its column
    and its [isExpanded]. *)
Abbreviation Row := (DataTable * DataTableColumn * bool)%type.

Fixpoint renderRows (rows : list Row) (a : Atom) : option Atom :=
  match rows with
  | [] => Some a
  | (table, column, expanded) :: rest =>
      match setExpandedColumns (columnKey table column) expanded a with
      | Some a' => renderRows rest a'
      | None => None
      end
  end.

(** The atom's reference is not dangling. *)
Definition valid (a : Atom) : Prop :=
  is_Some (sets a !! expandedColumnsAtom a).

(** The set the atom holds. *)
Definition current (a : Atom) : gset string :=
  match sets a !! expandedColumnsAtom a with
  | Some s => s
  | None => ∅
  end.

(** The [isExpanded] of the last row of a pass that has the key. *)
Fixpoint lastRow (key : string) (rows : list Row) : option bool :=
  match rows with
  | [] => None
  | (table, column, expanded) :: rest =>
      match lastRow key rest with
      | Some later => Some later
      | None =>
          if String.eqb (columnKey table column) key then Some expanded
          else None
      end
  end.

(** Rows to render: the columns [id] of two tables [users] in different
    schemas, and a column [name]. *)
Definition idColumn : DataTableColumn :=
  {| column_name := "id"; column_type := "integer";
     column_external_type := "INT" |}.

Definition nameColumn : DataTableColumn :=
  {| column_name := "name"; column_type := "string";
     column_external_type := "TEXT" |}.

Definition usersTable : DataTable := SortedTables.mkTable "users" Undefined.

Definition emptyAtom : Atom :=
  {| sets := {[ 0%nat := ∅ ]}; expandedColumnsAtom := 0%nat |}.

End ColumnItem.

(** ** [DataSources]: the search box and the column previews *)

Module SearchBox.

(** The search text of [DataSources], the boolean that
    [closeAllColumnsAtom] of [core/datasets/state] holds (the atom's
    declaration is not part of the sources; the panel sets it and the
    column rows read it), and a column row that stays mounted. *)
Record State : Type := {
  searchValue : string;
  closeAllColumnsAtom : bool;
  column : ColumnItem.State
}.

(** Every change of the state renders the column row again, with the value
    of the atom. *)
Definition rerender (s : State) : State :=
  {| searchValue := searchValue s;
     closeAllColumnsAtom := closeAllColumnsAtom s;
     column := ColumnItem.render (closeAllColumnsAtom s) (column s) |}.

Definition start (closeAllColumns : bool) : State :=
  rerender {| searchValue := ""; closeAllColumnsAtom := closeAllColumns;
              column := ColumnItem.mount |}.

(** [onValueChange] of the input:
    [closeAllColumns(value.length > 0); setSearchValue(value)]. *)
Definition onValueChange (value : string) (s : State) : State :=
  rerender {| searchValue := value;
              closeAllColumnsAtom := (0 <? String.length value)%nat;
              column := column s |}.

(** [onClick] of the clear button: [setSearchValue("")]. *)
Definition onClear (s : State) : State :=
  rerender {| searchValue := "";
              closeAllColumnsAtom := closeAllColumnsAtom s;
              column := column s |}.

(** [onSelect] of the column row. *)
Definition onSelectColumn (s : State) : State :=
  rerender {| searchValue := searchValue s;
              closeAllColumnsAtom := closeAllColumnsAtom s;
              column := ColumnItem.onSelect (column s) |}.

Inductive event : Type :=
| Type_ (value : string)
| Clear
| SelectColumn.

Definition step (s : State) (e : event) : State :=
  match e with
  | Type_ value => onValueChange value s
  | Clear => onClear s
  | SelectColumn => onSelectColumn s
  end.

Definition run (history : list event) (s : State) : State :=
  fold_left step history s.

End SearchBox.

(** * Properties *)

(** ** The stable sort *)

Module SortByFacts.
Section SortByFacts.
Context {A : Type} (iteratee : A -> Z).
Local Abbreviation insertBy := (JS.insertBy iteratee).
Local Abbreviation sortBy := (JS.sortBy iteratee).
Local Abbreviation keyIs := (JS.keyIs iteratee).
Local Abbreviation keyLe := (JS.keyLe iteratee).

Lemma insertBy_perm x l : Permutation (insertBy x l) (x :: l).
Proof.
  induction l as [|y l IH]; simpl; [reflexivity|].
  destruct (iteratee x <=? iteratee y); [reflexivity|].
  rewrite IH. apply perm_swap.
Qed.

Lemma sortBy_perm l : Permutation (sortBy l) l.
Proof.
  induction l as [|x l IH]; simpl; [constructor|].
  rewrite insertBy_perm. now constructor.
Qed.

Lemma insertBy_sorted x l :
  StronglySorted keyLe l -> StronglySorted keyLe (insertBy x l).
Proof.
  induction 1 as [|y l Hs IH Hall]; simpl.
  - repeat constructor.
  - destruct (Z.leb_spec (iteratee x) (iteratee y)) as [Hle|Hgt].
    + constructor; [now constructor|].
      constructor; [exact Hle|].
      eapply List.Forall_impl; [|exact Hall].
      intros b Hb. unfold keyLe in *. lia.
    + constructor; [exact IH|].
      eapply Permutation_Forall; [symmetry; apply insertBy_perm|].
      constructor; [unfold keyLe; lia|exact Hall].
Qed.

Lemma sortBy_sorted l : StronglySorted keyLe (sortBy l).
Proof.
  induction l as [|x l IH]; simpl; [constructor|].
  now apply insertBy_sorted.
Qed.

Lemma insertBy_filter x l k :
  StronglySorted keyLe l ->
  List.filter (keyIs k) (insertBy x l) = List.filter (keyIs k) (x :: l).
Proof.
  induction 1 as [|y l Hs IH Hall]; [reflexivity|].
  cbn [insertBy].
  destruct (Z.leb_spec (iteratee x) (iteratee y)) as [Hle|Hgt];
    [reflexivity|].
  cbn [List.filter] in *. rewrite IH. unfold keyIs.
  destruct (Z.eqb_spec (iteratee x) k), (Z.eqb_spec (iteratee y) k);
    try reflexivity.
  lia.
Qed.

Lemma sortBy_stable l k :
  List.filter (keyIs k) (sortBy l) = List.filter (keyIs k) l.
Proof.
  induction l as [|x l IH]; [reflexivity|].
  cbn [sortBy fold_right]. fold (sortBy l).
  rewrite insertBy_filter by apply sortBy_sorted.
  cbn [List.filter]. now rewrite IH.
Qed.

Lemma insertBy_head x l :
  Forall (fun y => iteratee x <= iteratee y) l -> insertBy x l = x :: l.
Proof.
  destruct 1 as [|y l Hy _]; [reflexivity|].
  simpl. destruct (Z.leb_spec (iteratee x) (iteratee y)); [reflexivity|lia].
Qed.

Lemma insertBy_app x l1 l2 :
  Forall (fun y => iteratee y < iteratee x) l1 ->
  insertBy x (l1 ++ l2) = l1 ++ insertBy x l2.
Proof.
  induction 1 as [|y l1 Hy _ IH]; [reflexivity|].
  simpl. destruct (Z.leb_spec (iteratee x) (iteratee y)); [lia|].
  now rewrite IH.
Qed.

(** Elements carrying the least key come first, in their original order,
    and the sort of the others follows. *)
Lemma sortBy_cons x l : sortBy (x :: l) = insertBy x (sortBy l).
Proof. reflexivity. Qed.

Lemma sortBy_least_first (m : Z) l :
  (forall a, m <= iteratee a) ->
  sortBy l =
    List.filter (keyIs m) l
    ++ sortBy (List.filter (fun a => negb (keyIs m a)) l).
Proof.
  intros Hmin. induction l as [|x l IH]; [reflexivity|].
  rewrite sortBy_cons, IH. cbn [List.filter].
  destruct (keyIs m x) eqn:E; cbn [negb].
  - apply Z.eqb_eq in E. rewrite <- app_comm_cons.
    apply insertBy_head. apply List.Forall_forall. intros y _.
    rewrite E. apply Hmin.
  - apply Z.eqb_neq in E. rewrite sortBy_cons.
    apply insertBy_app. apply List.Forall_forall. intros y Hy.
    apply filter_In in Hy as [_ Hy].
    apply Z.eqb_eq in Hy. specialize (Hmin x). lia.
Qed.

(** With a two-valued iteratee the sort is a stable partition. *)
Lemma sortBy_two_keys (lo hi : Z) l :
  lo < hi ->
  (forall a, iteratee a = lo \/ iteratee a = hi) ->
  sortBy l = List.filter (keyIs lo) l ++ List.filter (keyIs hi) l.
Proof.
  intros Hlt Hkeys. induction l as [|x l IH]; [reflexivity|].
  rewrite sortBy_cons, IH. cbn [List.filter].
  assert (Hlo : forall y, In y (List.filter (keyIs lo) l) -> iteratee y = lo).
  { intros y Hy. apply filter_In in Hy as [_ Hy]. now apply Z.eqb_eq in Hy. }
  assert (Hhi : forall y, In y (List.filter (keyIs hi) l) -> iteratee y = hi).
  { intros y Hy. apply filter_In in Hy as [_ Hy]. now apply Z.eqb_eq in Hy. }
  destruct (Hkeys x) as [Hx|Hx].
  - replace (keyIs lo x) with true by (symmetry; now apply Z.eqb_eq).
    replace (keyIs hi x) with false by (symmetry; apply Z.eqb_neq; lia).
    rewrite <- app_comm_cons.
    apply insertBy_head. apply List.Forall_forall. intros y _.
    destruct (Hkeys y); lia.
  - replace (keyIs hi x) with true by (symmetry; now apply Z.eqb_eq).
    replace (keyIs lo x) with false by (symmetry; apply Z.eqb_neq; lia).
    rewrite insertBy_app.
    + f_equal. apply insertBy_head. apply List.Forall_forall. intros y Hy.
      apply Hhi in Hy. lia.
    + apply List.Forall_forall. intros y Hy. apply Hlo in Hy. lia.
Qed.
End SortByFacts.
End SortByFacts.

(** ** [sortedTablesAtom] *)

Module SortedTablesFacts.
Import JS SortedTables.

Lemma indexOf_from_notin i l x :
  ~ In x l -> indexOf_from i l x = -1.
Proof.
  revert i. induction l as [|y l IH]; intros i Hx; [reflexivity|].
  simpl. destruct (String.eqb_spec y x) as [->|_].
  - exfalso. apply Hx. now left.
  - apply IH. intros H. apply Hx. now right.
Qed.

Lemma indexOf_from_nth i l x n :
  nth_error l n = Some x -> ~ In x (firstn n l) ->
  indexOf_from i l x = i + Z.of_nat n.
Proof.
  revert i n. induction l as [|y l IH]; intros i [|n] Hn Hx;
    try discriminate.
  - simpl in Hn. injection Hn as ->. simpl.
    rewrite String.eqb_refl. lia.
  - simpl in Hn, Hx. cbn [indexOf_from].
    destruct (String.eqb_spec y x) as [->|_].
    + exfalso. apply Hx. now left.
    + rewrite (IH (i + 1) n Hn); [lia|].
      intros H. apply Hx. now right.
Qed.

Lemma indexOf_from_range i l x :
  indexOf_from i l x = -1 \/ i <= indexOf_from i l x.
Proof.
  revert i. induction l as [|y l IH]; intros i; [now left|].
  simpl. destruct (String.eqb y x); [right; lia|].
  destruct (IH (i + 1)); [now left|right; lia].
Qed.

Lemma find_resolves variables n v before after :
  variables = before ++ v :: after ->
  var_name v = n ->
  Forall (fun u => var_name u <> n) before ->
  List.find (fun u => String.eqb (var_name u) n) variables = Some v.
Proof.
  intros -> Hv Hb. induction Hb as [|u before Hu _ IH]; simpl.
  - now rewrite Hv, String.eqb_refl.
  - destruct (String.eqb_spec (var_name u) n); [contradiction|exact IH].
Qed.

Lemma find_unresolved variables n :
  Forall (fun u => var_name u <> n) variables ->
  List.find (fun u => String.eqb (var_name u) n) variables = None.
Proof.
  induction 1 as [|u l Hu _ IH]; [reflexivity|].
  simpl. destruct (String.eqb_spec (var_name u) n); [contradiction|exact IH].
Qed.

Lemma truthy_Val n : n <> ""%string -> truthy (Val n) = true.
Proof.
  intros Hn. simpl. destruct (String.eqb_spec n ""); [contradiction|reflexivity].
Qed.

Lemma iteratee_noVariable variables inOrderIds t :
  noVariable t = true -> iteratee variables inOrderIds t = -1.
Proof. unfold noVariable, iteratee. now intros ->. Qed.

Lemma iteratee_hasVariable variables inOrderIds t :
  noVariable t = false -> 0 <= iteratee variables inOrderIds t.
Proof.
  unfold noVariable, iteratee. intros ->.
  destruct (List.find _ variables) as [v|]; [|lia].
  cbv zeta. destruct (Z.eqb_spec (indexOf inOrderIds (hd_error (declaredBy v))) (-1));
    [lia|].
  unfold indexOf in *. destruct (hd_error (declaredBy v)) as [c|]; [|lia].
  destruct (indexOf_from_range 0 inOrderIds c); [contradiction|lia].
Qed.

Lemma iteratee_unresolved variables inOrderIds t :
  unresolved variables t -> iteratee variables inOrderIds t = 0.
Proof.
  intros (n & Hn & Hne & Hall). unfold iteratee.
  rewrite Hn, (truthy_Val n Hne). cbn [negb].
  now rewrite (find_unresolved variables n Hall).
Qed.

Lemma iteratee_positionUnknown variables inOrderIds t v :
  resolves variables t v -> positionUnknown inOrderIds v ->
  iteratee variables inOrderIds t = 0.
Proof.
  intros (n & before & after & Hn & Hne & Hvs & Hv & Hb) Hpos.
  unfold iteratee. rewrite Hn, (truthy_Val n Hne). cbn [negb].
  rewrite (find_resolves variables n v before after Hvs Hv Hb). cbv zeta.
  unfold positionUnknown in Hpos. unfold indexOf.
  destruct (hd_error (declaredBy v)) as [c|]; [|reflexivity].
  now rewrite (indexOf_from_notin 0 inOrderIds c Hpos).
Qed.

Lemma iteratee_declaredAt variables inOrderIds t v i :
  resolves variables t v -> declaredAt inOrderIds v i ->
  iteratee variables inOrderIds t = Z.of_nat i.
Proof.
  intros (n & before & after & Hn & Hne & Hvs & Hv & Hb) (c & Hc & Hi & Hfirst).
  unfold iteratee. rewrite Hn, (truthy_Val n Hne). cbn [negb].
  rewrite (find_resolves variables n v before after Hvs Hv Hb). cbv zeta.
  rewrite Hc. unfold indexOf.
  rewrite (indexOf_from_nth 0 inOrderIds c i Hi Hfirst).
  destruct (Z.eqb_spec (0 + Z.of_nat i) (-1)); lia.
Qed.

(** C5: [sortedTablesAtom] sorts the tables stably by a key that is -1 for a
    table naming no declaring variable (so these come first, in their
    original order), 0 when the variable cannot be resolved or the position
    of its declaring cell is unknown, and otherwise the ordinal position of
    the declaring cell in the notebook's cell order; the spec's example
    [A(x, cell 2); B(no variable); C(y, cell 1)] sorts to [B; C; A]. *)
Theorem sortedTables_declaration_order
    (tables : list DataTable) (variables : list NotebookVariable)
    (inOrderIds : list CellId) :
  let key := iteratee variables inOrderIds in
  let sorted := sortedTablesAtom tables variables inOrderIds in
  (forall t, noVariable t = true -> key t = -1) /\
  (forall t, unresolved variables t -> key t = 0) /\
  (forall t v, resolves variables t v -> positionUnknown inOrderIds v ->
               key t = 0) /\
  (forall t v i, resolves variables t v -> declaredAt inOrderIds v i ->
                 key t = Z.of_nat i) /\
  Permutation sorted tables /\
  StronglySorted (fun a b => key a <= key b) sorted /\
  (forall k, List.filter (fun t => key t =? k) sorted
             = List.filter (fun t => key t =? k) tables) /\
  sorted = List.filter noVariable tables
           ++ sortBy key (List.filter (fun t => negb (noVariable t)) tables) /\
  sortedTablesAtom exampleTables exampleVariables exampleCellIds
  = [mkTable "B" Undefined; mkTable "C" (Val "y"); mkTable "A" (Val "x")].
Proof.
  intros key sorted. subst key sorted. unfold sortedTablesAtom.
  repeat split.
  - apply iteratee_noVariable.
  - apply iteratee_unresolved.
  - apply iteratee_positionUnknown.
  - apply iteratee_declaredAt.
  - apply SortByFacts.sortBy_perm.
  - apply SortByFacts.sortBy_sorted.
  - apply SortByFacts.sortBy_stable.
  - rewrite (SortByFacts.sortBy_least_first _ (-1)).
    + f_equal; [|f_equal]; apply filter_ext; intros t; unfold keyIs;
        destruct (noVariable t) eqn:E.
      * now rewrite iteratee_noVariable.
      * pose proof (iteratee_hasVariable variables inOrderIds t E).
        apply Z.eqb_neq. lia.
      * now rewrite iteratee_noVariable.
      * pose proof (iteratee_hasVariable variables inOrderIds t E).
        replace (_ =? -1) with false; [reflexivity|].
        symmetry. apply Z.eqb_neq. lia.
    + intros t. destruct (noVariable t) eqn:E.
      * rewrite iteratee_noVariable by assumption. lia.
      * pose proof (iteratee_hasVariable variables inOrderIds t E). lia.
Qed.

End SortedTablesFacts.

(** ** [connectionsAtom] *)

Module ConnectionsFacts.
Import JS Connections.

Lemma filter_all {A : Type} (f : A -> bool) (l : list A) :
  (forall x, In x l -> f x = true) -> List.filter f l = l.
Proof.
  induction l as [|x l IH]; intros H; [reflexivity|].
  simpl. rewrite (H x (or_introl eq_refl)). f_equal.
  apply IH. intros y Hy. apply H. now right.
Qed.

Lemma filter_twice {A : Type} (f g : A -> bool) (l : list A) :
  List.filter f (List.filter g l) = List.filter (fun x => g x && f x) l.
Proof.
  induction l as [|x l IH]; [reflexivity|].
  simpl. destruct (g x); simpl; [destruct (f x)|]; now rewrite IH.
Qed.

Lemma NoDup_map_filter {A B : Type} (p : A -> B) (f : A -> bool) (l : list A) :
  List.NoDup (List.map p l) -> List.NoDup (List.map p (List.filter f l)).
Proof.
  induction l as [|x l IH]; intros H; [exact H|].
  simpl in H. apply List.NoDup_cons_iff in H as [Hx Hl].
  simpl. destruct (f x); [|now apply IH].
  simpl. apply List.NoDup_cons_iff. split; [|now apply IH].
  intros Hin. apply Hx.
  apply List.in_map_iff in Hin as (y & Hy & Hin).
  apply List.filter_In in Hin as [Hin _].
  apply List.in_map_iff. now exists y.
Qed.

(** *** The [Map] operations on maps with unique keys *)

Lemma map_get_unique k v v' m :
  List.NoDup (List.map fst m) -> map_get k m = Some v -> In (k, v') m -> v' = v.
Proof.
  induction m as [|[k0 v0] m IH]; [contradiction|].
  simpl. intros Hnd. apply List.NoDup_cons_iff in Hnd as [Hk0 Hnd].
  destruct (String.eqb_spec k0 k) as [->|Hne].
  - intros [= ->] [[= ->]|Hin]; [reflexivity|].
    exfalso. apply Hk0. apply List.in_map_iff. now exists (k, v').
  - intros Hget [[= -> _]|Hin]; [contradiction|]. now apply IH.
Qed.

Lemma map_set_fresh k v m :
  ~ In k (List.map fst m) -> map_set k v m = m ++ [(k, v)].
Proof.
  induction m as [|[k' v'] m IH]; intros H; [reflexivity|].
  simpl. destruct (String.eqb_spec k' k) as [->|_].
  - exfalso. apply H. now left.
  - f_equal. apply IH. intros Hin. apply H. now right.
Qed.

Lemma fold_map_set entries acc :
  List.NoDup (List.map fst (acc ++ entries)) ->
  fold_left (fun m e => map_set (fst e) (snd e) m) entries acc
  = acc ++ entries.
Proof.
  revert acc. induction entries as [|[k v] entries IH]; intros acc Hnd.
  - now rewrite app_nil_r.
  - simpl. rewrite map_set_fresh.
    + rewrite IH; rewrite <- app_assoc; [reflexivity|exact Hnd].
    + rewrite List.map_app in Hnd. apply List.NoDup_app_remove_r in Hnd as Hacc.
      intros Hin. simpl in Hnd.
      apply List.NoDup_remove_2 in Hnd. apply Hnd.
      apply List.in_or_app. now left.
Qed.

Lemma map_of_entries_Map m :
  List.NoDup (List.map fst m) -> map_of_entries m = m.
Proof. intros H. unfold map_of_entries. now rewrite fold_map_set. Qed.

(** *** The pruning loop *)

Lemma pruneStep_filter m engine :
  List.NoDup (List.map fst m) ->
  pruneStep m engine
  = List.filter
      (fun e => negb (String.eqb (fst e) engine && noDatabases (snd e))) m.
Proof.
  intros Hnd. unfold pruneStep.
  destruct (map_get engine m) as [c|] eqn:Hget.
  - destruct (noDatabases c) eqn:Hc.
    + unfold map_delete. apply filter_ext_in. intros [k v] Hin. simpl.
      destruct (String.eqb_spec k engine) as [->|_]; [|reflexivity].
      rewrite (map_get_unique engine c v m Hnd Hget Hin). now rewrite Hc.
    + symmetry. apply filter_all. intros [k v] Hin. simpl.
      destruct (String.eqb_spec k engine) as [->|_]; [|reflexivity].
      rewrite (map_get_unique engine c v m Hnd Hget Hin). now rewrite Hc.
  - symmetry. apply filter_all. intros [k v] Hin. simpl.
    destruct (String.eqb_spec k engine) as [->|_]; [|reflexivity].
    exfalso. destruct (in_dec string_dec engine (List.map fst m)) as [Hk|Hk].
    + apply List.in_map_iff in Hk as ([k' v'] & Hk' & Hin'). simpl in Hk'.
      subst k'. clear -Hget Hin'. induction m as [|[k0 v0] m IH];
        [contradiction|].
      simpl in Hget. destruct (String.eqb_spec k0 engine) as [->|Hne];
        [discriminate|].
      destruct Hin' as [[= -> _]|Hin']; [contradiction|]. now apply IH.
    + apply Hk. apply List.in_map_iff. now exists (engine, v).
Qed.

Lemma prune_filter internal m :
  List.NoDup (List.map fst m) ->
  prune internal m = List.filter (fun e => negb (pruned internal e)) m.
Proof.
  unfold prune. revert m.
  induction internal as [|engine internal IH]; intros m Hnd.
  - simpl. symmetry. now apply filter_all.
  - simpl. rewrite pruneStep_filter by exact Hnd.
    rewrite IH by now apply NoDup_map_filter.
    rewrite filter_twice. apply filter_ext. intros [k v].
    unfold pruned. simpl.
    destruct (String.eqb k engine), (existsb (String.eqb k) internal),
      (noDatabases v); reflexivity.
Qed.

(** *** Running the atom on a store *)

Lemma run_prune_loop (internal : list string) (r : ref) (h : store) m :
  h !! r = Some m ->
  forOf internal (fun engine =>
    connection <- getM r engine ;;
    match connection with
    | Some c =>
        if (length (connection_databases c) =? 0)%nat
        then deleteM r engine
        else ret tt
    | None => ret tt
    end) h
  = Some (tt, <[r := prune internal m]> h).
Proof.
  revert h m. induction internal as [|engine internal IH]; intros h m Hr.
  - simpl. unfold ret. now rewrite insert_id.
  - cbn [forOf]. unfold bind at 1. unfold bind at 1. unfold getM at 1.
    rewrite Hr. unfold prune. cbn [fold_left]. fold (prune internal).
    unfold pruneStep, noDatabases.
    destruct (map_get engine m) as [c|].
    + destruct (length (connection_databases c) =? 0)%nat.
      * unfold deleteM. rewrite Hr.
        rewrite (IH _ (map_delete engine m)) by apply lookup_insert_eq.
        now rewrite insert_insert_eq.
      * unfold ret. now apply IH.
    + unfold ret. now apply IH.
Qed.

Lemma run_connectionsAtomM (internal : list string) (r : ref) (h : store) m :
  h !! r = Some m ->
  connectionsAtomM internal r h
  = Some (sortBy (connectionIteratee internal)
            (map_values (prune internal (map_of_entries m))),
          <[fresh (dom h) := prune internal (map_of_entries m)]> h).
Proof.
  intros Hr. unfold connectionsAtomM.
  unfold bind at 1. unfold entriesM. rewrite Hr.
  unfold bind at 1. unfold newMap. cbv zeta.
  unfold bind at 1.
  rewrite (run_prune_loop internal _ _ (map_of_entries m))
    by apply lookup_insert_eq.
  unfold bind, valuesM, ret. rewrite lookup_insert_eq.
  now rewrite insert_insert_eq.
Qed.

Lemma connectionsAtom_eq (internal : list string) m :
  connectionsAtom internal m
  = sortBy (connectionIteratee internal)
      (map_values (prune internal (map_of_entries m))).
Proof.
  unfold connectionsAtom.
  now rewrite (run_connectionsAtomM internal 0%nat _ m)
    by apply lookup_singleton_eq.
Qed.

(** *** The visible list *)

Lemma values_filter_keyed internal m :
  Forall (fun e => fst e = connection_name (snd e)) m ->
  map_values (List.filter (fun e => negb (pruned internal e)) m)
  = List.filter (fun c => negb (hidden internal c)) (map_values m).
Proof.
  induction 1 as [|[k c] m Hk _ IH]; [reflexivity|].
  simpl in Hk. subst k. unfold map_values in *.
  cbn [List.filter List.map snd].
  change (pruned internal (connection_name c, c)) with (hidden internal c).
  destruct (hidden internal c); cbn [negb List.map snd];
    [exact IH|now rewrite IH].
Qed.

Lemma sortBy_connections internal cs :
  sortBy (connectionIteratee internal) cs
  = List.filter (fun c => negb (isInternal internal c)) cs
    ++ List.filter (isInternal internal) cs.
Proof.
  rewrite (SortByFacts.sortBy_two_keys _ 0 1); [|lia|].
  - f_equal; apply filter_ext; intros c;
      unfold keyIs, connectionIteratee, isInternal;
      now destruct (set_has internal (connection_name c)).
  - intros c. unfold connectionIteratee.
    destruct (set_has internal (connection_name c)); auto.
Qed.

Lemma connectionsAtom_visible internal m :
  keyedByName m ->
  let kept := List.filter (fun c => negb (hidden internal c)) (map_values m) in
  connectionsAtom internal m
  = List.filter (fun c => negb (isInternal internal c)) kept
    ++ List.filter (isInternal internal) kept.
Proof.
  intros [Hnd Hkeys] kept. subst kept.
  rewrite connectionsAtom_eq, map_of_entries_Map by exact Hnd.
  rewrite prune_filter by exact Hnd.
  rewrite values_filter_keyed by exact Hkeys.
  apply sortBy_connections.
Qed.

Lemma sortBy_sorted_id {A : Type} (key : A -> Z) (l : list A) :
  StronglySorted (keyLe key) l -> sortBy key l = l.
Proof.
  induction 1 as [|x l _ IH Hall]; [reflexivity|].
  rewrite SortByFacts.sortBy_cons, IH. now apply SortByFacts.insertBy_head.
Qed.

Lemma keyedByName_mapOfConnections cs :
  List.NoDup (List.map connection_name cs) ->
  mapOfConnections cs = List.map (fun c => (connection_name c, c)) cs /\
  keyedByName (mapOfConnections cs).
Proof.
  intros Hnd.
  assert (Hfst : List.map fst (List.map (fun c => (connection_name c, c)) cs)
                 = List.map connection_name cs).
  { rewrite List.map_map. now apply List.map_ext. }
  assert (Heq : mapOfConnections cs
                = List.map (fun c => (connection_name c, c)) cs).
  { unfold mapOfConnections. apply map_of_entries_Map. now rewrite Hfst. }
  split; [exact Heq|]. rewrite Heq. split.
  - now rewrite Hfst.
  - apply List.Forall_forall. intros e He.
    apply List.in_map_iff in He as (c & <- & _). reflexivity.
Qed.

Lemma keyed_names m :
  keyedByName m ->
  List.map connection_name (map_values m) = List.map fst m.
Proof.
  intros [_ Hkeys]. unfold map_values. rewrite List.map_map.
  induction Hkeys as [|e m He _ IH]; [reflexivity|].
  simpl. now rewrite IH, He.
Qed.

(** C6: on a connections map keyed by name, the atom yields the connections
    that are not internal engines without databases, the user-defined ones
    first and the internal engines after them, each group in the order of
    the map. *)
Theorem visible_connections_user_first
    (internal : list string) (h : store) (r : ref) m :
  h !! r = Some m ->
  keyedByName m ->
  let kept := List.filter (fun c => negb (hidden internal c)) (map_values m) in
  exists h',
    connectionsAtomM internal r h
    = Some (List.filter (fun c => negb (isInternal internal c)) kept
            ++ List.filter (isInternal internal) kept, h').
Proof.
  intros Hr Hkeyed kept. eexists.
  rewrite (run_connectionsAtomM internal r h m Hr).
  rewrite <- connectionsAtom_eq.
  now rewrite (connectionsAtom_visible internal m Hkeyed).
Qed.

(** C8: deriving the visible connections from the map of the visible
    connections gives the visible connections again. *)
Theorem visible_connections_idempotent (internal : list string) m :
  keyedByName m ->
  connectionsAtom internal (mapOfConnections (connectionsAtom internal m))
  = connectionsAtom internal m.
Proof.
  intros Hkeyed. pose proof Hkeyed as [Hnd Hkeys].
  set (visible := connectionsAtom internal m).
  assert (Hvisible : visible
            = sortBy (connectionIteratee internal)
                (List.filter (fun c => negb (hidden internal c))
                   (map_values m))).
  { subst visible. rewrite connectionsAtom_eq, map_of_entries_Map by exact Hnd.
    rewrite prune_filter by exact Hnd.
    now rewrite values_filter_keyed by exact Hkeys. }
  assert (Hperm : Permutation visible
            (List.filter (fun c => negb (hidden internal c)) (map_values m))).
  { rewrite Hvisible. apply SortByFacts.sortBy_perm. }
  assert (Hnames : List.NoDup (List.map connection_name visible)).
  { eapply Permutation_NoDup.
    - symmetry. apply Permutation_map. exact Hperm.
    - apply NoDup_map_filter. now rewrite keyed_names. }
  destruct (keyedByName_mapOfConnections visible Hnames) as [Hmap Hkeyed'].
  pose proof Hkeyed' as [Hnd' Hkeys'].
  rewrite connectionsAtom_eq, map_of_entries_Map by exact Hnd'.
  rewrite prune_filter by exact Hnd'.
  rewrite values_filter_keyed by exact Hkeys'.
  replace (map_values (mapOfConnections visible)) with visible.
  - rewrite filter_all.
    + rewrite Hvisible. apply sortBy_sorted_id. apply SortByFacts.sortBy_sorted.
    + intros c Hc. eapply Permutation_in in Hc; [|exact Hperm].
      now apply List.filter_In in Hc as [_ Hc].
  - rewrite Hmap. unfold map_values. rewrite List.map_map. simpl.
    now rewrite List.map_id.
Qed.

(** C10: evaluating the atom leaves the shared connections map, and every
    other object of the store, as it was: the deletions go to a fresh copy. *)
Theorem connectionsAtom_preserves_shared_map
    (internal : list string) (h : store) (dataConnectionsMapAtom : ref) m :
  h !! dataConnectionsMapAtom = Some m ->
  exists visible h',
    connectionsAtomM internal dataConnectionsMapAtom h = Some (visible, h') /\
    h' !! dataConnectionsMapAtom = Some m /\
    (forall r, is_Some (h !! r) -> h' !! r = h !! r).
Proof.
  intros Hr. do 2 eexists.
  split; [apply (run_connectionsAtomM internal _ h m Hr)|].
  assert (Hold : forall r, is_Some (h !! r) ->
            <[fresh (dom h) := prune internal (map_of_entries m)]> h !! r
            = h !! r).
  { intros r Hsome. apply lookup_insert_ne. intros <-.
    apply (is_fresh (dom h)). now apply elem_of_dom. }
  split; [|exact Hold].
  rewrite <- Hr. apply Hold. now rewrite Hr.
Qed.

Ltac example_keyed :=
  split;
  [ repeat constructor; simpl; intuition discriminate
  | repeat constructor ].

Lemma visible_connections_user_first_witness :
  exists h',
    connectionsAtomM exampleInternal 0%nat {[ 0%nat := exampleMap ]}
    = Some ([ mkConnection "snowflake" [];
              mkConnection "pg" [mainDatabase];
              mkConnection "__marimo_duckdb" [mainDatabase] ], h').
Proof.
  refine (visible_connections_user_first exampleInternal
            {[ 0%nat := exampleMap ]} 0%nat exampleMap _ _).
  - vm_compute. reflexivity.
  - example_keyed.
Defined.

Lemma visible_connections_idempotent_witness :
  connectionsAtom exampleInternal
    (mapOfConnections (connectionsAtom exampleInternal exampleMap))
  = connectionsAtom exampleInternal exampleMap.
Proof.
  apply (visible_connections_idempotent exampleInternal exampleMap).
  example_keyed.
Defined.

Lemma connectionsAtom_preserves_shared_map_witness :
  exists visible h',
    connectionsAtomM exampleInternal 0%nat {[ 0%nat := exampleMap ]}
    = Some (visible, h') /\
    h' !! 0%nat = Some exampleMap /\
    (forall r, is_Some (({[ 0%nat := exampleMap ]} : store) !! r) ->
               h' !! r = ({[ 0%nat := exampleMap ]} : store) !! r).
Proof.
  apply (connectionsAtom_preserves_shared_map exampleInternal
           {[ 0%nat := exampleMap ]} 0%nat exampleMap).
  vm_compute. reflexivity.
Defined.

(** The run on the example: the copy loses the engine without databases,
    the shared map keeps it. *)
Example connectionsAtom_example_run :
  connectionsAtomM exampleInternal 0%nat {[ 0%nat := exampleMap ]}
  = Some ([ mkConnection "snowflake" [];
            mkConnection "pg" [mainDatabase];
            mkConnection "__marimo_duckdb" [mainDatabase] ],
          {[ 0%nat := exampleMap;
             1%nat := [ ("__marimo_duckdb"%string,
                          mkConnection "__marimo_duckdb" [mainDatabase]);
                        ("snowflake"%string, mkConnection "snowflake" []);
                        ("pg"%string, mkConnection "pg" [mainDatabase]) ] ]}).
Proof. vm_compute. reflexivity. Qed.

End ConnectionsFacts.

(** ** [getCode] *)

Module SnippetFacts.
Import JS Snippet.

Section GetCodeFacts.
Variable sqlCode : DataTable -> string -> option SQLTableContext -> string.
Variable logNever : string -> outcome unit.

Lemma unhandled_kind kind :
  handled kind = false ->
  String.eqb kind "catalog" = false /\ String.eqb kind "local" = false /\
  String.eqb kind "duckdb" = false /\ String.eqb kind "connection" = false.
Proof.
  unfold handled, handledKinds. cbn [existsb].
  destruct (String.eqb kind "catalog"), (String.eqb kind "local"),
    (String.eqb kind "duckdb"), (String.eqb kind "connection");
    cbn; intros H; try discriminate H; auto.
Qed.

Lemma getCode_unhandled_context table ctx :
  handled (source_type table) = false ->
  getCode sqlCode logNever table (Some ctx)
  = Returned (sqlCode table "*" (Some ctx)).
Proof.
  intros H. apply unhandled_kind in H as (Hc & _).
  unfold getCode. now rewrite Hc.
Qed.

Lemma getCode_unhandled_no_context table :
  handled (source_type table) = false ->
  getCode sqlCode logNever table None
  = andThen (logNever (source_type table)) (fun _ => Returned ""%string).
Proof.
  intros H. apply unhandled_kind in H as (Hc & Hl & Hd & Hn).
  unfold getCode. now rewrite Hc, Hl, Hd, Hn.
Qed.

End GetCodeFacts.

(** C1, as the code has it: for a table whose source kind is not one of
    catalog, local, duckdb and connection, [getCode] returns the select-all
    query of [sqlCode] when a SQL context is present, without calling
    [logNever]; without a SQL context it calls [logNever] on the kind and
    returns the empty string when that call returns, and it throws only
    what [logNever] throws. *)
Theorem getCode_unhandled_kind
    (sqlCode : DataTable -> string -> option SQLTableContext -> string)
    (logNever : string -> outcome unit) (table : DataTable) :
  handled (source_type table) = false ->
  (forall ctx, getCode sqlCode logNever table (Some ctx)
               = Returned (sqlCode table "*" (Some ctx))) /\
  (logNever (source_type table) = Returned tt ->
   getCode sqlCode logNever table None = Returned ""%string) /\
  (forall e, logNever (source_type table) = Thrown e ->
             getCode sqlCode logNever table None = Thrown e).
Proof.
  intros H. split; [|split].
  - intros ctx. now apply getCode_unhandled_context.
  - intros Hlog. rewrite getCode_unhandled_no_context by exact H.
    now rewrite Hlog.
  - intros e Hlog. rewrite getCode_unhandled_no_context by exact H.
    now rewrite Hlog.
Qed.

Lemma getCode_unhandled_kind_witness :
  (forall ctx,
     getCode selectAll logOnly (tableOfKind "parquet" "events") (Some ctx)
     = Returned "SELECT * FROM events"%string) /\
  getCode selectAll logOnly (tableOfKind "parquet" "events") None
  = Returned ""%string.
Proof.
  destruct (getCode_unhandled_kind selectAll logOnly
              (tableOfKind "parquet" "events") eq_refl) as (Hctx & Hlog & _).
  split; [exact Hctx|]. apply Hlog. reflexivity.
Defined.

(** C1 as stated fails: for the unhandled kind ["parquet"] and a SQL
    context, [getCode] returns a query even when [logNever] is an assertion
    that throws; and with a [logNever] that only logs and no SQL context it
    returns the empty string. *)
Lemma getCode_unhandled_kind_not_fatal :
  getCode selectAll assertNever (tableOfKind "parquet" "events")
    (Some (contextOf "db"))
  = Returned "SELECT * FROM events"%string /\
  getCode selectAll logOnly (tableOfKind "parquet" "events") None
  = Returned ""%string.
Proof. split; reflexivity. Qed.

(** C7: a catalog table [t] under a database [d] with a SQL context yields
    the call [engine.load_table] on the quoted identifier [d.t]; a local
    table [df] without SQL context yields [mo.ui.table(df)]. *)
Theorem getCode_catalog_and_local
    (sqlCode : DataTable -> string -> option SQLTableContext -> string)
    (logNever : string -> outcome unit)
    (t d df : string) (engine variable : nullable string)
    (columns : list DataTableColumn) (ctx : SQLTableContext) :
  d <> ""%string ->
  ctx_database ctx = d ->
  getCode sqlCode logNever
    {| table_name := t; source_type := "catalog"; table_engine := engine;
       variable_name := variable; table_columns := columns |}
    (Some ctx)
  = Returned (interpolate engine +:+ ".load_table(" +:+ dquote
              +:+ (d +:+ "." +:+ t) +:+ dquote +:+ ")") /\
  getCode sqlCode logNever
    {| table_name := df; source_type := "local"; table_engine := engine;
       variable_name := variable; table_columns := columns |}
    None
  = Returned ("mo.ui.table(" +:+ df +:+ ")").
Proof.
  intros Hd Hctx. split; [|reflexivity].
  unfold getCode. cbn [source_type table_name table_engine].
  rewrite Hctx. cbn [String.eqb Ascii.eqb Bool.eqb].
  destruct (String.eqb_spec d ""); [contradiction|].
  cbn [negb]. reflexivity.
Qed.

Lemma getCode_catalog_and_local_witness :
  getCode selectAll logOnly (tableOfKind "catalog" "t") (Some (contextOf "d"))
  = Returned ("engine.load_table(" +:+ dquote +:+ "d.t" +:+ dquote +:+ ")") /\
  getCode selectAll logOnly (tableOfKind "local" "df") None
  = Returned "mo.ui.table(df)"%string.
Proof.
  apply (getCode_catalog_and_local selectAll logOnly "t" "d" "df"
           (Val "engine") Undefined [] (contextOf "d")).
  - discriminate.
  - reflexivity.
Defined.

End SnippetFacts.

(** ** [DatabaseItem] and [SchemaItem] *)

Module ExpansionFacts.
Import Expansion.







End ExpansionFacts.

(** ** [TableList] and [DatasetTableItem] *)

Module TableListFacts.
Import FetchCache FetchCache.TableList.


(** Once the flag is set, no event issues a request or clears the flag. *)
Lemma tableList_step_requested s e :
  tablesRequested s = true ->
  tablesRequested (step s e) = true /\ requests (step s e) = requests s.
Proof.
  intros Hreq. destruct e as [p|response|e]; cbn [step].
  - unfold render. destruct (loaderRuns _ _); [|now split].
    unfold loader. destruct (sqlTableContext p) as [[r ctx]|]; [|now split].
    rewrite Hreq, andb_false_r. now split.
  - unfold resolve. destruct (awaiting s); [|now split].
    destruct response as [[[ts|]]|]; now split.
  - unfold reject. destruct (awaiting s); now split.
Qed.

Lemma tableList_run_requested history s :
  tablesRequested s = true ->
  tablesRequested (run history s) = true /\
  requests (run history s) = requests s.
Proof.
  revert s. induction history as [|e history IH]; intros s Hreq; [now split|].
  destruct (tableList_step_requested s e Hreq) as [Hflag Hsame].
  destruct (IH (step s e) Hflag) as [Hflag' Hsame'].
  change (run (e :: history) s) with (run history (step s e)).
  split; [exact Hflag'|]. now rewrite Hsame'.
Qed.

Lemma tableList_step_inv s e : tableListInv s -> tableListInv (step s e).
Proof.
  intros [(Hflag & Hreqs & Hwait)|(Hflag & Hlen)].
  - destruct e as [p|response|e]; cbn [step].
    + unfold render. destruct (loaderRuns _ _); [|now left].
      unfold loader. destruct (sqlTableContext p) as [[r ctx]|]; [|now left].
      destruct ((length (tables p) =? 0)%nat && negb (tablesRequested s));
        [|now left].
      right. cbn. now rewrite Hreqs.
    + unfold resolve. rewrite Hwait. now left.
    + unfold reject. rewrite Hwait. now left.
  - right. destruct (tableList_step_requested s e Hflag) as [Hflag' Hsame].
    split; [exact Hflag'|congruence].
Qed.

Lemma tableList_run_inv history s :
  tableListInv s -> tableListInv (run history s).
Proof.
  revert s. induction history as [|e history IH]; intros s Hs; [exact Hs|].
  apply (IH (step s e)). now apply tableList_step_inv.
Qed.

Lemma tableList_mount_inv : tableListInv mount.
Proof. now left. Qed.

Lemma tableList_at_most_one history :
  (length (requests (run history mount)) <= 1)%nat.
Proof.
  destruct (tableList_run_inv history mount tableList_mount_inv)
    as [(_ & -> & _)|(_ & ->)]; simpl; lia.
Qed.

Lemma tableList_exactly_one r ctx search history :
  requests
    (run (Render {| tables := []; sqlTableContext := Some (r, ctx);
                    searchValue := search |} :: history) mount)
  = [requestOf ctx].
Proof.
  cbn [run fold_left step].
  match goal with |- requests (fold_left step history ?s) = _ =>
    destruct (tableList_run_requested history s eq_refl) as [_ Hsame] end.
  unfold run in Hsame. now rewrite Hsame.
Qed.

(** A render that issues a request sets the flag in the same step. *)
Lemma tableList_flag_with_request p s :
  requests (render p s) = requests s \/
  (tablesRequested s = false /\ tablesRequested (render p s) = true /\
   exists ctx, requests (render p s) = requestOf ctx :: requests s /\
               awaiting (render p s) = Some ctx).
Proof.
  unfold render. destruct (loaderRuns _ _); [|now left].
  unfold loader. destruct (sqlTableContext p) as [[r ctx]|]; [|now left].
  destruct (length (tables p) =? 0)%nat; [|now left].
  destruct (tablesRequested s); [now left|].
  right. cbn. repeat split. now exists ctx.
Qed.

End TableListFacts.

Module DatasetTableItemFacts.
Import FetchCache FetchCache.DatasetTableItem.

Lemma tableItem_step_requested s e :
  tableDetailsRequested s = true ->
  tableDetailsRequested (step s e) = true /\
  requests (step s e) = requests s.
Proof.
  intros Hreq. destruct e as [p| |response|e]; cbn [step].
  - unfold render. destruct (loaderRuns _ _); [|now split].
    unfold loader. destruct (sqlTableContext p) as [[r ctx]|]; [|now split].
    rewrite Hreq, andb_false_r. now split.
  - now split.
  - unfold resolve. destruct (awaiting s); [|now split].
    destruct response as [[[details|]]|]; now split.
  - unfold reject. destruct (awaiting s); now split.
Qed.

Lemma tableItem_run_requested history s :
  tableDetailsRequested s = true ->
  tableDetailsRequested (run history s) = true /\
  requests (run history s) = requests s.
Proof.
  revert s. induction history as [|e history IH]; intros s Hreq; [now split|].
  destruct (tableItem_step_requested s e Hreq) as [Hflag Hsame].
  destruct (IH (step s e) Hflag) as [Hflag' Hsame'].
  change (run (e :: history) s) with (run history (step s e)).
  split; [exact Hflag'|]. now rewrite Hsame'.
Qed.

Lemma tableItem_step_inv s e : tableItemInv s -> tableItemInv (step s e).
Proof.
  intros [(Hflag & Hreqs & Hwait)|(Hflag & Hlen)].
  - destruct e as [p| |response|e]; cbn [step].
    + unfold render. destruct (loaderRuns _ _); [|now left].
      unfold loader. destruct (sqlTableContext p) as [[r ctx]|]; [|now left].
      destruct (isExpanded s && negb (tableDetailsExist p)
                && negb (tableDetailsRequested s)); [|now left].
      right. cbn. now rewrite Hreqs.
    + now left.
    + unfold resolve. rewrite Hwait. now left.
    + unfold reject. rewrite Hwait. now left.
  - right. destruct (tableItem_step_requested s e Hflag) as [Hflag' Hsame].
    split; [exact Hflag'|congruence].
Qed.

Lemma tableItem_run_inv history s :
  tableItemInv s -> tableItemInv (run history s).
Proof.
  revert s. induction history as [|e history IH]; intros s Hs; [exact Hs|].
  apply (IH (step s e)). now apply tableItem_step_inv.
Qed.

Lemma tableItem_at_most_one history :
  (length (requests (run history mount)) <= 1)%nat.
Proof.
  assert (Hmount : tableItemInv mount) by now left.
  destruct (tableItem_run_inv history mount Hmount)
    as [(_ & -> & _)|(_ & ->)]; simpl; lia.
Qed.

(** A table without columns, under a SQL context, expanded by the user. *)
Lemma tableItem_exactly_one name kind engine variable r ctx searching history :
  let t := {| table_name := name; source_type := kind; table_engine := engine;
              variable_name := variable; table_columns := [] |} in
  let p := {| table := t; sqlTableContext := Some (r, ctx);
              isSearching := searching |} in
  requests (run (Render p :: Select :: Render p :: history) mount)
  = [requestOf ctx t].
Proof.
  intros t p. cbn [run fold_left step].
  match goal with |- requests (fold_left step history ?s) = _ =>
    destruct (tableItem_run_requested history s eq_refl) as [_ Hsame] end.
  unfold run in Hsame. now rewrite Hsame.
Qed.

Lemma tableItem_flag_with_request p s :
  requests (render p s) = requests s \/
  (tableDetailsRequested s = false /\
   tableDetailsRequested (render p s) = true /\
   exists ctx, requests (render p s) = requestOf ctx (table p) :: requests s /\
               awaiting (render p s) = Some ctx).
Proof.
  unfold render. destruct (loaderRuns _ _); [|now left].
  unfold loader. destruct (sqlTableContext p) as [[r ctx]|]; [|now left].
  destruct (isExpanded s && negb (tableDetailsExist p)); [|now left].
  destruct (tableDetailsRequested s); [now left|].
  right. cbn. repeat split. now exists ctx.
Qed.

End DatasetTableItemFacts.

Module FetchCacheFacts.
Import FetchCache.

(** C3: a node issues at most one fetch, whatever renders, selections and
    responses follow one another: a [TableList] rendered with no tables and
    a SQL context issues exactly one request, for its (engine, database,
    schema), and a [DatasetTableItem] without columns expanded under a SQL
    context exactly one, for the same key and its table name, however many
    renders and events come after, before or after the fetch resolves; the
    render that issues the request sets the requested flag in the same
    step. *)
Theorem one_fetch_per_node :
  (forall history,
     (length (TableList.requests (TableList.run history TableList.mount))
      <= 1)%nat) /\
  (forall r ctx search history,
     TableList.requests
       (TableList.run
          (TableList.Render
             {| TableList.tables := [];
                TableList.sqlTableContext := Some (r, ctx);
                TableList.searchValue := search |} :: history)
          TableList.mount)
     = [ {| TableList.req_engine := ctx_engine ctx;
            TableList.req_database := ctx_database ctx;
            TableList.req_schema := ctx_schema ctx |} ]) /\
  (forall p s,
     TableList.requests (TableList.render p s) <> TableList.requests s ->
     TableList.tablesRequested (TableList.render p s) = true) /\
  (forall history,
     (length (DatasetTableItem.requests
                (DatasetTableItem.run history DatasetTableItem.mount))
      <= 1)%nat) /\
  (forall name kind engine variable r ctx searching history,
     let p :=
       {| DatasetTableItem.table :=
            {| table_name := name; source_type := kind;
               table_engine := engine; variable_name := variable;
               table_columns := [] |};
          DatasetTableItem.sqlTableContext := Some (r, ctx);
          DatasetTableItem.isSearching := searching |} in
     DatasetTableItem.requests
       (DatasetTableItem.run
          (DatasetTableItem.Render p :: DatasetTableItem.Select
           :: DatasetTableItem.Render p :: history)
          DatasetTableItem.mount)
     = [ {| DatasetTableItem.req_engine := ctx_engine ctx;
            DatasetTableItem.req_database := ctx_database ctx;
            DatasetTableItem.req_schema := ctx_schema ctx;
            DatasetTableItem.req_tableName := name |} ]) /\
  (forall p s,
     DatasetTableItem.requests (DatasetTableItem.render p s)
     <> DatasetTableItem.requests s ->
     DatasetTableItem.tableDetailsRequested (DatasetTableItem.render p s)
     = true).
Proof.
  repeat apply conj.
  - apply TableListFacts.tableList_at_most_one.
  - apply TableListFacts.tableList_exactly_one.
  - intros p s Hne.
    destruct (TableListFacts.tableList_flag_with_request p s)
      as [Hsame|(_ & Hflag & _)]; [contradiction|exact Hflag].
  - apply DatasetTableItemFacts.tableItem_at_most_one.
  - intros name kind engine variable r ctx searching history.
    apply (DatasetTableItemFacts.tableItem_exactly_one
             name kind engine variable r ctx searching history).
  - intros p s Hne.
    destruct (DatasetTableItemFacts.tableItem_flag_with_request p s)
      as [Hsame|(_ & Hflag & _)]; [contradiction|exact Hflag].
Qed.



(** The parent renders the node again and again, each time with a new
    context object, before the fetch resolves: one request. *)
Example tableList_rerenders_one_request :
  TableList.requests
    (TableList.run
       [TableList.Render (TableList.emptySchema 0);
        TableList.Render (TableList.emptySchema 0);
        TableList.Render (TableList.emptySchema 1);
        TableList.Render (TableList.emptySchema 2)]
       TableList.mount)
  = [TableList.requestOf TableList.exampleContext].
Proof. vm_compute. reflexivity. Qed.

(** A response with an empty array of tables is not an error: the array is
    added, and the node shows the empty state without asking again. *)
Example tableList_empty_array :
  let s :=
    TableList.run
      [TableList.Render (TableList.emptySchema 0);
       TableList.Resolve (Some {| TableList.resp_tables := Some [] |});
       TableList.Render (TableList.emptySchema 1)]
      TableList.mount in
  TableList.error s = None /\
  TableList.show (TableList.emptySchema 1) s = EmptyState "No tables found" /\
  TableList.added s = [([], TableList.exampleContext)] /\
  TableList.requests s = [TableList.requestOf TableList.exampleContext].
Proof. vm_compute. repeat split. Qed.

(** The user expands a table, collapses it while the fetch is under way,
    and expands it again after the fetch has failed: one request. *)
Example tableItem_reexpand_one_request :
  DatasetTableItem.requests
    (DatasetTableItem.run
       [DatasetTableItem.Render (DatasetTableItem.bareTable 0);
        DatasetTableItem.Select;
        DatasetTableItem.Render (DatasetTableItem.bareTable 0);
        DatasetTableItem.Select;
        DatasetTableItem.Render (DatasetTableItem.bareTable 1);
        DatasetTableItem.Resolve None;
        DatasetTableItem.Select;
        DatasetTableItem.Render (DatasetTableItem.bareTable 2)]
       DatasetTableItem.mount)
  = [ {| DatasetTableItem.req_engine := "pg";
         DatasetTableItem.req_database := "db";
         DatasetTableItem.req_schema := "public";
         DatasetTableItem.req_tableName := "users" |} ].
Proof. vm_compute. reflexivity. Qed.

End FetchCacheFacts.

(** ** [Engine] *)

Module RefreshFacts.
Import Refresh.

(** A refresh started while no callback is pending and no request is in
    flight: the spinner is on while the request runs and for 500 ms after
    it has completed, and off from then on. *)
Lemma refresh_alone_spins (s : State) (latency d : nat) :
  timers s = [] -> inFlight s = 0%nat ->
  isSpinning (run [Click; Elapse latency] s) = true /\
  isSpinning (run [Click; Elapse latency; Complete] s) = true /\
  ((d < 500)%nat ->
   isSpinning (run [Click; Elapse latency; Complete; Elapse d] s) = true) /\
  ((500 <= d)%nat ->
   isSpinning (run [Click; Elapse latency; Complete; Elapse d] s) = false).
Proof.
  destruct s as [spinning t pending flying]. cbn [timers inFlight].
  intros -> ->.
  cbn [run fold_left step]. unfold complete, elapse, click.
  cbn [isSpinning now timers inFlight existsb List.filter app orb].
  repeat split.
  - intros Hd. destruct (Nat.leb_spec (t + latency + 500)
                           (t + latency + d)); [lia|reflexivity].
  - intros Hd. destruct (Nat.leb_spec (t + latency + 500)
                           (t + latency + d)); [reflexivity|lia].
Qed.

(** C9 fails for a refresh started while the callback of an earlier one is
    pending: after a first refresh at 0 ms, answered at once, a second
    refresh at 400 ms, answered at once, has its spinner turned off at
    500 ms by the first callback, 100 ms after it was started. *)
Theorem refresh_overlap_cuts_spinner :
  now (run [Click; Complete; Elapse 400; Click] mount) = 400%nat /\
  isSpinning (run [Click; Complete; Elapse 400; Click] mount) = true /\
  now (run [Click; Complete; Elapse 400; Click; Complete; Elapse 100] mount)
  = 500%nat /\
  isSpinning
    (run [Click; Complete; Elapse 400; Click; Complete; Elapse 100] mount)
  = false.
Proof. repeat split. Qed.

End RefreshFacts.

(** * Further properties *)

(** ** [sortedTablesAtom], continued *)

Module SortedTablesMore.
Import JS SortedTables.

(** X1: sorting is idempotent: the sorted tables, sorted again against the
    same variables and cell order, stay as they are. *)
Theorem sortedTables_idempotent
    (tables : list DataTable) (variables : list NotebookVariable)
    (inOrderIds : list CellId) :
  sortedTablesAtom (sortedTablesAtom tables variables inOrderIds)
    variables inOrderIds
  = sortedTablesAtom tables variables inOrderIds.
Proof.
  unfold sortedTablesAtom.
  apply ConnectionsFacts.sortBy_sorted_id, SortByFacts.sortBy_sorted.
Qed.

Lemma iteratee_no_variables inOrderIds t :
  iteratee [] inOrderIds t = -1 \/ iteratee [] inOrderIds t = 0.
Proof.
  unfold iteratee. destruct (negb (truthy (variable_name t))); auto.
Qed.

Lemma iteratee_no_cells variables t :
  iteratee variables [] t = -1 \/ iteratee variables [] t = 0.
Proof.
  unfold iteratee. destruct (negb (truthy (variable_name t))); [auto|].
  destruct (List.find _ variables) as [v|]; [|auto].
  cbv zeta. unfold indexOf.
  destruct (hd_error (declaredBy v)); simpl; auto.
Qed.

Lemma partition_by_variable key (tables : list DataTable) :
  (forall t, key t = (if noVariable t then -1 else 0)) ->
  sortBy key tables
  = List.filter noVariable tables
    ++ List.filter (fun t => negb (noVariable t)) tables.
Proof.
  intros Hkey.
  rewrite (SortByFacts.sortBy_two_keys key (-1) 0); [|lia|].
  - f_equal; apply filter_ext; intros t; unfold keyIs; rewrite Hkey;
      now destruct (noVariable t).
  - intros t. rewrite Hkey. destruct (noVariable t); auto.
Qed.

(** X2: while no variable is known, or while the cell order is empty, the
    tables that name no variable come first and the others follow, both
    groups in their original order. *)
Theorem sortedTables_nothing_declared
    (tables : list DataTable) (variables : list NotebookVariable)
    (inOrderIds : list CellId) :
  sortedTablesAtom tables [] inOrderIds
  = List.filter noVariable tables
    ++ List.filter (fun t => negb (noVariable t)) tables /\
  sortedTablesAtom tables variables []
  = List.filter noVariable tables
    ++ List.filter (fun t => negb (noVariable t)) tables.
Proof.
  unfold sortedTablesAtom. split; apply partition_by_variable; intros t.
  - destruct (noVariable t) eqn:E.
    + now apply SortedTablesFacts.iteratee_noVariable.
    + pose proof (SortedTablesFacts.iteratee_hasVariable [] inOrderIds t E).
      destruct (iteratee_no_variables inOrderIds t); lia.
  - destruct (noVariable t) eqn:E.
    + now apply SortedTablesFacts.iteratee_noVariable.
    + pose proof (SortedTablesFacts.iteratee_hasVariable variables [] t E).
      destruct (iteratee_no_cells variables t); lia.
Qed.

End SortedTablesMore.

(** ** [DataSources] and [Engine] *)

Module PanelFacts.
Import JS Connections Panel.

Lemma sortedTables_nil tables variables inOrderIds :
  SortedTables.sortedTablesAtom tables variables inOrderIds = [] <->
  tables = [].
Proof.
  unfold SortedTables.sortedTablesAtom. split.
  - intros H. apply Permutation_nil.
    rewrite <- H. apply SortByFacts.sortBy_perm.
  - now intros ->.
Qed.

Lemma filter_nil_iff {A : Type} (f : A -> bool) (l : list A) :
  List.filter f l = [] <-> Forall (fun x => f x = false) l.
Proof.
  induction l as [|x l IH]; simpl.
  - split; [constructor|reflexivity].
  - destruct (f x) eqn:E.
    + split; [discriminate|]. intros H. inversion H; congruence.
    + rewrite IH. split; [now constructor|]. intros H. now inversion H.
Qed.

Lemma connectionsAtom_nil internal m :
  keyedByName m ->
  connectionsAtom internal m = [] <->
  Forall (fun c => hidden internal c = true) (map_values m).
Proof.
  intros Hkeyed.
  rewrite (ConnectionsFacts.connectionsAtom_visible internal m Hkeyed).
  cbv zeta.
  set (kept := List.filter (fun c => negb (hidden internal c)) (map_values m)).
  assert (Hkept : kept = [] <->
            Forall (fun c => hidden internal c = true) (map_values m)).
  { subst kept. rewrite filter_nil_iff. split; intros H;
      (eapply List.Forall_impl; [|exact H]); intros c Hc; cbv beta in *;
      destruct (hidden internal c); simpl in *; congruence. }
  rewrite <- Hkept. split.
  - intros H. apply app_eq_nil in H as [Hu Hi].
    rewrite filter_nil_iff in Hu, Hi.
    destruct kept as [|c kept']; [reflexivity|].
    inversion Hu; inversion Hi; subst.
    destruct (isInternal internal c); simpl in *; congruence.
  - now intros ->.
Qed.

(** X3: the panel shows its empty state exactly when there is no in-memory
    table and every connection of the map is an internal engine without
    databases. *)
Theorem panel_empty_state
    (DUCKDB_ENGINE : string) (internal : list string)
    (tables : list DataTable) (variables : list NotebookVariable)
    (inOrderIds : list CellId) m :
  keyedByName m ->
  panel DUCKDB_ENGINE internal tables variables inOrderIds m = PanelEmptyState
  <->
  tables = [] /\ Forall (fun c => hidden internal c = true) (map_values m).
Proof.
  intros Hkeyed. unfold panel, DataSources.
  rewrite <- (sortedTables_nil tables variables inOrderIds).
  rewrite <- (connectionsAtom_nil internal m Hkeyed).
  destruct (SortedTables.sortedTablesAtom tables variables inOrderIds);
    destruct (connectionsAtom internal m); simpl;
    split; try discriminate; try (intros [? ?]; discriminate); auto.
Qed.

Lemma panel_empty_state_witness :
  panel "__marimo_duckdb" exampleInternal [] [] []
    [ ("__marimo_duckdb"%string, mkConnection "__marimo_duckdb" []) ]
  = PanelEmptyState.
Proof.
  apply (panel_empty_state "__marimo_duckdb" exampleInternal [] [] []
           [ ("__marimo_duckdb"%string, mkConnection "__marimo_duckdb" []) ]).
  - ConnectionsFacts.example_keyed.
  - split; [reflexivity|]. repeat constructor.
Defined.

(** X4: every internal engine the panel lists shows its databases: the
    empty state "No databases available" appears under user-defined
    connections only. *)
Theorem internal_engine_has_databases
    (DUCKDB_ENGINE : string) (internal : list string) m
    (connection : DataSourceConnection) :
  keyedByName m ->
  In connection (connectionsAtom internal m) ->
  isInternal internal connection = true ->
  connection_databases connection <> [] /\
  engineBody
    (Engine DUCKDB_ENGINE connection
       (0 <? length (connection_databases connection))%nat)
  = DatabaseItems (connection_databases connection).
Proof.
  intros Hkeyed Hin Hinternal.
  rewrite (ConnectionsFacts.connectionsAtom_visible internal m Hkeyed) in Hin.
  cbv zeta in Hin.
  assert (Hvisible : hidden internal connection = false).
  { apply List.in_app_or in Hin as [Hin|Hin];
      apply List.filter_In in Hin as [Hin _];
      apply List.filter_In in Hin as [_ Hin];
      now destruct (hidden internal connection). }
  unfold hidden, noDatabases in Hvisible. rewrite Hinternal in Hvisible.
  simpl in Hvisible. unfold Engine. cbn [engineBody].
  destruct (connection_databases connection) as [|d ds]; [discriminate|].
  split; [discriminate|reflexivity].
Qed.

Lemma internal_engine_has_databases_witness :
  connection_databases (mkConnection "__marimo_duckdb" [mainDatabase]) <> [] /\
  engineBody
    (Engine "__marimo_duckdb" (mkConnection "__marimo_duckdb" [mainDatabase])
       true)
  = DatabaseItems [mainDatabase].
Proof.
  apply (internal_engine_has_databases "__marimo_duckdb" exampleInternal
           exampleMap (mkConnection "__marimo_duckdb" [mainDatabase])).
  - ConnectionsFacts.example_keyed.
  - vm_compute. auto.
  - reflexivity.
Defined.

End PanelFacts.

(** ** [TableList], continued *)

Module TableListMore.
Import FetchCache FetchCache.TableList FetchStates.



(** X5: a [TableList] that is never rendered with a SQL context and an
    empty list of tables at once, as the list of in-memory tables is, never
    issues a request. *)
Theorem tableList_no_needless_fetch (history : list event) :
  Forall tableListQuiet history ->
  requests (run history mount) = [] /\
  tablesRequested (run history mount) = false.
Proof.
  assert (H : forall s,
            requests s = [] -> tablesRequested s = false ->
            Forall tableListQuiet history ->
            requests (run history s) = [] /\
            tablesRequested (run history s) = false).
  { induction history as [|e history IH]; intros s Hreqs Hflag Hquiet;
      [now split|].
    inversion Hquiet as [|? ? He Hrest]; subst.
    unfold tableListQuiet in He.
    apply (IH (step s e)); [| |exact Hrest].
    - destruct e as [p|response|e]; cbn [step].
      + unfold render. destruct (loaderRuns _ _); [|exact Hreqs].
        unfold loader. destruct (sqlTableContext p) as [[r ctx]|] eqn:Hctx;
          [|exact Hreqs].
        destruct He as [He|He]; [discriminate|].
        destruct (tables p); [contradiction|exact Hreqs].
      + unfold resolve. destruct (awaiting s); [|exact Hreqs].
        now destruct response as [[[ts|]]|].
      + unfold reject. now destruct (awaiting s).
    - destruct e as [p|response|e]; cbn [step].
      + unfold render. destruct (loaderRuns _ _); [|exact Hflag].
        unfold loader. destruct (sqlTableContext p) as [[r ctx]|] eqn:Hctx;
          [|exact Hflag].
        destruct He as [He|He]; [discriminate|].
        destruct (tables p); [contradiction|exact Hflag].
      + unfold resolve. destruct (awaiting s); [|exact Hflag].
        now destruct response as [[[ts|]]|].
      + unfold reject. now destruct (awaiting s). }
  now apply H.
Qed.

Lemma tableList_no_needless_fetch_witness :
  requests
    (run [Render {| tables := SortedTables.exampleTables;
                    sqlTableContext := Some (0%nat, exampleContext);
                    searchValue := Undefined |};
          Render {| tables := []; sqlTableContext := None;
                    searchValue := Val "a" |}] mount) = [] /\
  tablesRequested
    (run [Render {| tables := SortedTables.exampleTables;
                    sqlTableContext := Some (0%nat, exampleContext);
                    searchValue := Undefined |};
          Render {| tables := []; sqlTableContext := None;
                    searchValue := Val "a" |}] mount) = false.
Proof.
  apply tableList_no_needless_fetch.
  constructor; [right; discriminate|].
  constructor; [left; reflexivity|].
  constructor.
Defined.





End TableListMore.

(** ** [DatasetTableItem], continued *)

Module DatasetTableItemMore.
Import FetchCache FetchCache.DatasetTableItem FetchStates.



(** X8: a table node that is never rendered with a SQL context and without
    columns at once, as the in-memory tables are, never issues a request,
    however often it is expanded. *)
Theorem tableItem_no_needless_fetch (history : list event) :
  Forall tableItemQuiet history ->
  requests (run history mount) = [].
Proof.
  assert (H : forall s,
            requests s = [] ->
            Forall tableItemQuiet history ->
            requests (run history s) = []).
  { induction history as [|e history IH]; intros s Hreqs Hquiet;
      [exact Hreqs|].
    inversion Hquiet as [|? ? He Hrest]; subst.
    unfold tableItemQuiet in He.
    apply (IH (step s e)); [|exact Hrest].
    destruct e as [p| |response|e]; cbn [step].
    - unfold render. destruct (loaderRuns _ _); [|exact Hreqs].
      unfold loader. destruct (sqlTableContext p) as [[r ctx]|] eqn:Hctx;
        [|exact Hreqs].
      destruct He as [He|He]; [discriminate|].
      rewrite He. cbn [negb]. now rewrite andb_false_r.
    - exact Hreqs.
    - unfold resolve. destruct (awaiting s); [|exact Hreqs].
      now destruct response as [[[details|]]|].
    - unfold reject. now destruct (awaiting s). }
  now apply H.
Qed.

Lemma tableItem_no_needless_fetch_witness :
  requests
    (run [Render {| table := SortedTables.mkTable "df" (Val "df");
                    sqlTableContext := None; isSearching := false |};
          Select;
          Render {| table := SortedTables.mkTable "df" (Val "df");
                    sqlTableContext := None; isSearching := false |}]
       mount)
  = [].
Proof.
  apply tableItem_no_needless_fetch.
  constructor; [left; reflexivity|].
  constructor; [exact I|].
  constructor; [left; reflexivity|].
  constructor.
Defined.

(** X9: a table node that the user never selects stays collapsed and never
    issues a request, whatever it is rendered with. *)
Theorem tableItem_collapsed_never_fetches (history : list event) :
  Forall (fun e => e <> Select) history ->
  isExpanded (run history mount) = false /\
  requests (run history mount) = [].
Proof.
  assert (H : forall s,
            isExpanded s = false -> requests s = [] ->
            Forall (fun e => e <> Select) history ->
            isExpanded (run history s) = false /\
            requests (run history s) = []).
  { induction history as [|e history IH]; intros s Hcollapsed Hreqs Hnone;
      [now split|].
    inversion Hnone as [|? ? He Hrest]; subst.
    apply (IH (step s e)); [| |exact Hrest].
    - destruct e as [p| |response|e]; cbn [step].
      + unfold render. destruct (loaderRuns _ _); [|exact Hcollapsed].
        unfold loader. destruct (sqlTableContext p) as [[r ctx]|];
          [rewrite Hcollapsed|]; exact Hcollapsed.
      + contradiction.
      + unfold resolve. destruct (awaiting s); [|exact Hcollapsed].
        now destruct response as [[[details|]]|].
      + unfold reject. now destruct (awaiting s).
    - destruct e as [p| |response|e]; cbn [step].
      + unfold render. destruct (loaderRuns _ _); [|exact Hreqs].
        unfold loader. destruct (sqlTableContext p) as [[r ctx]|];
          [rewrite Hcollapsed|]; exact Hreqs.
      + contradiction.
      + unfold resolve. destruct (awaiting s); [|exact Hreqs].
        now destruct response as [[[details|]]|].
      + unfold reject. now destruct (awaiting s). }
  now apply H.
Qed.

Lemma tableItem_collapsed_never_fetches_witness :
  isExpanded (run [Render (bareTable 0); Render (bareTable 1)] mount) = false /\
  requests (run [Render (bareTable 0); Render (bareTable 1)] mount) = [].
Proof.
  apply tableItem_collapsed_never_fetches.
  repeat constructor; discriminate.
Defined.


End DatasetTableItemMore.

(** ** [DatabaseItem] and [SchemaItem], continued *)

Module ExpansionMore.
Import Expansion ExpansionView.

Lemma run_cons e history s : run (e :: history) s = run history (step s e).
Proof. reflexivity. Qed.

Lemma run_app history later s :
  run (history ++ later) s = run later (run history s).
Proof. unfold run. apply fold_left_app. Qed.

(** The two flags move together as long as the search is not active. *)
Lemma in_phase_kept history s :
  isSelected s = isExpanded s -> effectDeps s = Some false ->
  searchNeverActive history ->
  isSelected (run history s) = isExpanded (run history s) /\
  effectDeps (run history s) = Some false.
Proof.
  revert s. induction history as [|e history IH]; intros s Hphase Hdeps Hnever;
    [now split|].
  inversion Hnever as [|? ? He Hrest]; subst.
  rewrite run_cons. apply IH; [| |exact Hrest].
  - destruct e as [[|]|]; cbn [step]; [contradiction| |].
    + unfold render. now rewrite Hdeps.
    + cbn. now rewrite Hphase.
  - destruct e as [[|]|]; cbn [step]; [contradiction| |].
    + unfold render. now rewrite Hdeps.
    + exact Hdeps.
Qed.

(** X11: as long as the search has never been active, the selected flag of
    a database or schema node equals its expanded flag: the row is
    highlighted exactly when it is expanded. *)
Theorem selected_follows_expanded (history : list event) :
  searchNeverActive history ->
  isSelected (run (Render false :: history) mount)
  = isExpanded (run (Render false :: history) mount) /\
  highlighted (run (Render false :: history) mount)
  = isExpanded (run (Render false :: history) mount).
Proof.
  intros Hnever. rewrite run_cons.
  destruct (in_phase_kept history (step mount (Render false)))
    as [Hphase _]; [reflexivity|reflexivity|exact Hnever|].
  split; [exact Hphase|]. unfold highlighted. rewrite Hphase.
  apply andb_diag.
Qed.

Lemma selected_follows_expanded_witness :
  isSelected (run (Render false :: [Select; Render false; Select; Select]) mount)
  = isExpanded
      (run (Render false :: [Select; Render false; Select; Select]) mount) /\
  highlighted
    (run (Render false :: [Select; Render false; Select; Select]) mount)
  = isExpanded
      (run (Render false :: [Select; Render false; Select; Select]) mount).
Proof.
  apply (selected_follows_expanded [Select; Render false; Select; Select]).
  repeat constructor; discriminate.
Defined.

Lemma out_of_phase_kept history s :
  isSelected s = negb (isExpanded s) -> effectDeps s = Some true ->
  duringSearch history ->
  isSelected (run history s) = negb (isExpanded (run history s)).
Proof.
  revert s. induction history as [|e history IH]; intros s Hphase Hdeps Hduring;
    [exact Hphase|].
  inversion Hduring as [|? ? He Hrest]; subst.
  rewrite run_cons. apply IH; [| |exact Hrest].
  - destruct He as [->| ->]; cbn [step].
    + cbn. now rewrite Hphase.
    + unfold render. now rewrite Hdeps.
  - destruct He as [->| ->]; cbn [step].
    + exact Hdeps.
    + unfold render. now rewrite Hdeps.
Qed.

(** X12: a node that was collapsed when the search became active, and that
    the search has expanded, is not highlighted for as long as the search
    lasts, however often it is selected. *)
Theorem search_expanded_never_highlighted (history later : list event) :
  searchNeverActive history ->
  isExpanded (run (Render false :: history) mount) = false ->
  duringSearch later ->
  isExpanded (run (Render false :: history ++ [Render true]) mount) = true /\
  highlighted (run (Render false :: history ++ Render true :: later) mount)
  = false.
Proof.
  intros Hnever Hcollapsed Hduring.
  destruct (in_phase_kept history (step mount (Render false)))
    as [Hphase Hdeps]; [reflexivity|reflexivity|exact Hnever|].
  rewrite run_cons in Hcollapsed.
  set (s := run history (step mount (Render false))) in *.
  assert (Hforced : step s (Render true)
            = {| isExpanded := true; isSelected := false;
                 effectDeps := Some true |}).
  { cbn [step]. unfold render. rewrite Hdeps. cbn.
    now rewrite Hphase, Hcollapsed. }
  split.
  - rewrite run_cons, run_app. fold s.
    change (run [Render true] s) with (step s (Render true)).
    now rewrite Hforced.
  - rewrite run_cons, run_app. fold s. rewrite run_cons, Hforced.
    unfold highlighted.
    rewrite (out_of_phase_kept later); [|reflexivity|reflexivity|exact Hduring].
    apply andb_negb_l.
Qed.

Lemma search_expanded_never_highlighted_witness :
  isExpanded (run (Render false :: [Select; Select] ++ [Render true]) mount)
  = true /\
  highlighted
    (run (Render false :: [Select; Select]
                          ++ Render true :: [Select; Render true; Select])
       mount)
  = false.
Proof.
  apply (search_expanded_never_highlighted
           [Select; Select] [Select; Render true; Select]).
  - repeat constructor; discriminate.
  - reflexivity.
  - constructor; [now left|]. constructor; [now right|].
    constructor; [now left|]. constructor.
Defined.

End ExpansionMore.

(** ** [Engine], continued *)

Module RefreshMore.
Import Refresh RefreshTime.

Lemma run_elapses_idle durations s :
  timers s = [] ->
  isSpinning (run (elapses durations) s) = isSpinning s /\
  timers (run (elapses durations) s) = [].
Proof.
  revert s. induction durations as [|d durations IH]; intros s Htimers;
    [now split|].
  cbn [elapses List.map run fold_left step].
  destruct (IH (elapse d s)) as [Hspin Hnone].
  - unfold elapse. cbn. now rewrite Htimers.
  - unfold elapses, run in *. rewrite Hspin, Hnone. split; [|reflexivity].
    unfold elapse. cbn. now rewrite Htimers.
Qed.

(** X13: a refresh whose request fails leaves the spinner on: no callback
    is scheduled, and no amount of time turns it off. *)
Theorem refresh_failure_spins_on (s : State) (durations : list nat) :
  timers s = [] ->
  isSpinning (run (Click :: Fail :: elapses durations) s) = true.
Proof.
  intros Htimers. cbn [run fold_left step].
  destruct (run_elapses_idle durations (fail (click s))) as [Hspin _].
  - unfold fail, click. cbn. exact Htimers.
  - unfold run in Hspin. rewrite Hspin. reflexivity.
Qed.

Lemma refresh_failure_spins_on_witness :
  isSpinning (run (Click :: Fail :: elapses [500; 1000; 4000]%nat) mount)
  = true.
Proof.
  apply (refresh_failure_spins_on mount [500; 1000; 4000]%nat).
  reflexivity.
Defined.

Lemma run_elapses_one_timer durations s deadline :
  timers s = [deadline] -> isSpinning s = true -> (now s < deadline)%nat ->
  ((now s + total durations < deadline)%nat ->
   isSpinning (run (elapses durations) s) = true) /\
  ((deadline <= now s + total durations)%nat ->
   isSpinning (run (elapses durations) s) = false).
Proof.
  revert s. induction durations as [|d durations IH];
    intros s Htimers Hspin Hnow.
  - cbn. split; [intros _; exact Hspin|lia].
  - cbn [elapses List.map run fold_left step total fold_right].
    fold (total durations). fold (elapses durations).
    fold (run (elapses durations) (elapse d s)).
    destruct (Nat.leb_spec deadline (now s + d)) as [Hdue|Hnot].
    + assert (Hfired : isSpinning (elapse d s) = false /\
                       timers (elapse d s) = []).
      { unfold elapse. cbn. rewrite Htimers. cbn.
        destruct (Nat.leb_spec deadline (now s + d)); [now split|lia]. }
      destruct Hfired as [Hoff Hnone].
      destruct (run_elapses_idle durations (elapse d s) Hnone) as [Hsame _].
      split; [lia|]. intros _. now rewrite Hsame.
    + assert (Hkept : isSpinning (elapse d s) = true /\
                      timers (elapse d s) = [deadline] /\
                      now (elapse d s) = (now s + d)%nat).
      { unfold elapse. cbn. rewrite Htimers. cbn.
        destruct (Nat.leb_spec deadline (now s + d)); [lia|].
        now repeat split. }
      destruct Hkept as (Hon & Hone & Hclock).
      destruct (IH (elapse d s) Hone Hon) as [Hbefore Hafter];
        [rewrite Hclock; lia|].
      rewrite Hclock in Hbefore, Hafter.
      split; intros H; [apply Hbefore|apply Hafter]; lia.
Qed.

(** X14: a refresh started on an idle node keeps the spinner on while the
    request runs and for 500 ms after its completion, however the time is
    cut into stretches, and the spinner is off from then on. *)
Theorem refresh_idle_floor (s : State) (latency : nat) (durations : list nat) :
  timers s = [] -> inFlight s = 0%nat ->
  isSpinning (run [Click; Elapse latency] s) = true /\
  ((total durations < 500)%nat ->
   isSpinning
     (run (Click :: Elapse latency :: Complete :: elapses durations) s)
   = true) /\
  ((500 <= total durations)%nat ->
   isSpinning
     (run (Click :: Elapse latency :: Complete :: elapses durations) s)
   = false).
Proof.
  destruct s as [spinning t pending flying]. cbn [timers inFlight].
  intros -> ->. split; [reflexivity|].
  cbn [run fold_left step].
  fold (run (elapses durations)
          (complete (elapse latency
             (click {| isSpinning := spinning; now := t; timers := [];
                       inFlight := 0 |})))).
  destruct (run_elapses_one_timer durations
              (complete (elapse latency
                 (click {| isSpinning := spinning; now := t; timers := [];
                           inFlight := 0 |})))
              (t + latency + 500)%nat)
    as [Hbefore Hafter]; try reflexivity.
  - cbn. lia.
  - cbn [now complete elapse click inFlight] in Hbefore, Hafter.
    split; intros H; [apply Hbefore|apply Hafter]; lia.
Qed.

Lemma refresh_idle_floor_witness :
  isSpinning (run [Click; Elapse 120] mount) = true /\
  ((total [100; 200; 199]%nat < 500)%nat ->
   isSpinning
     (run (Click :: Elapse 120 :: Complete :: elapses [100; 200; 199]%nat) mount)
   = true) /\
  ((500 <= total [100; 200; 199]%nat)%nat ->
   isSpinning
     (run (Click :: Elapse 120 :: Complete :: elapses [100; 200; 199]%nat) mount)
   = false).
Proof.
  apply (refresh_idle_floor mount 120 [100; 200; 199]%nat); reflexivity.
Defined.

Lemma filter_none_due (due : nat -> bool) (l : list nat) :
  existsb due l = false -> List.filter (fun d => negb (due d)) l = l.
Proof.
  induction l as [|d l IH]; [reflexivity|].
  simpl. destruct (due d); [discriminate|].
  intros H. simpl. now rewrite IH.
Qed.

(** Every pending callback is due within 500 ms, and a spinner that is on
    has a request in flight or a callback pending. *)
Lemma refresh_invariant history s :
  noFailure history ->
  Forall (fun deadline => (deadline <= now s + 500)%nat) (timers s) ->
  (isSpinning s = true -> inFlight s <> 0%nat \/ timers s <> []) ->
  Forall (fun deadline => (deadline <= now (run history s) + 500)%nat)
    (timers (run history s)) /\
  (isSpinning (run history s) = true ->
   inFlight (run history s) <> 0%nat \/ timers (run history s) <> []).
Proof.
  revert s. induction history as [|e history IH]; intros s Hnone Hdue Hbusy;
    [now split|].
  inversion Hnone as [|? ? He Hrest]; subst.
  cbn [run fold_left]. fold (run history (step s e)).
  apply IH; [exact Hrest| |].
  - destruct e as [| | |d]; cbn [step]; [exact Hdue| |contradiction|].
    + unfold complete. destruct (inFlight s); [exact Hdue|].
      cbn. apply Forall_app. split; [exact Hdue|].
      constructor; [lia|constructor].
    + unfold elapse. cbn. apply List.Forall_forall. intros deadline Hin.
      apply List.filter_In in Hin as [Hin _].
      rewrite List.Forall_forall in Hdue. specialize (Hdue deadline Hin). lia.
  - destruct e as [| | |d]; cbn [step]; [| |contradiction|].
    + intros _. left. cbn. discriminate.
    + unfold complete. destruct (inFlight s) eqn:Hflight;
        [now rewrite Hflight|].
      intros _. right. cbn. now destruct (timers s).
    + unfold elapse. cbn.
      destruct (existsb _ (timers s)) eqn:Hfire; [discriminate|].
      rewrite (filter_none_due _ _ Hfire). exact Hbusy.
Qed.

(** X15: the spinner always stops: when no request has failed and none is
    in flight any more, 500 ms later the spinner is off, whatever clicks,
    completions and delays came before. *)
Theorem refresh_spinner_stops (history : list event) :
  noFailure history ->
  inFlight (run history mount) = 0%nat ->
  isSpinning (run (history ++ [Elapse 500]) mount) = false.
Proof.
  intros Hnone Hidle.
  destruct (refresh_invariant history mount Hnone) as [Hdue Hbusy].
  - constructor.
  - discriminate.
  - unfold run. rewrite fold_left_app. fold (run history mount).
    cbn [fold_left step]. unfold elapse. cbn [isSpinning].
    destruct (isSpinning (run history mount)) eqn:Hspin;
      [|now destruct (existsb _ _)].
    destruct (Hbusy eq_refl) as [Hflight|Htimers]; [contradiction|].
    destruct (timers (run history mount)) as [|deadline rest];
      [contradiction|].
    inversion Hdue as [|? ? Hfirst _]; subst. cbn [existsb].
    destruct (Nat.leb_spec deadline (now (run history mount) + 500));
      [reflexivity|lia].
Qed.

Lemma refresh_spinner_stops_witness :
  isSpinning
    (run ([Click; Complete; Elapse 400; Click; Elapse 30; Complete]
          ++ [Elapse 500]) mount)
  = false.
Proof.
  apply (refresh_spinner_stops
           [Click; Complete; Elapse 400; Click; Elapse 30; Complete]).
  - repeat constructor; discriminate.
  - reflexivity.
Defined.

End RefreshMore.

(** ** [getCode], continued *)

Module SnippetMore.
Import JS Snippet.

(** X16: [getCode] throws only for a table of an unhandled source kind
    without SQL context, and then what [logNever] throws; for every other
    table it returns a snippet. *)
Theorem getCode_throws_only_unhandled
    (sqlCode : DataTable -> string -> option SQLTableContext -> string)
    (logNever : string -> outcome unit)
    (table : DataTable) (ctx : option SQLTableContext) (e : string) :
  getCode sqlCode logNever table ctx = Thrown e ->
  handled (source_type table) = false /\ ctx = None /\
  logNever (source_type table) = Thrown e.
Proof.
  unfold getCode, handled, handledKinds. cbn [existsb].
  destruct (String.eqb (source_type table) "catalog"); [discriminate|].
  destruct ctx as [c|]; [discriminate|].
  destruct (String.eqb (source_type table) "local"); [discriminate|].
  destruct (String.eqb (source_type table) "duckdb"); [discriminate|].
  destruct (String.eqb (source_type table) "connection"); [discriminate|].
  cbn. destruct (logNever (source_type table)) as [[]|e'];
    [discriminate|].
  intros [= ->]. now repeat split.
Qed.

Lemma getCode_throws_only_unhandled_witness :
  handled (source_type (tableOfKind "parquet" "events")) = false /\
  (None : option SQLTableContext) = None /\
  assertNever (source_type (tableOfKind "parquet" "events"))
  = Thrown "Unexpected object: parquet".
Proof.
  apply (getCode_throws_only_unhandled selectAll assertNever
           (tableOfKind "parquet" "events") None
           "Unexpected object: parquet").
  reflexivity.
Defined.

(** X17: for a catalog table without SQL context, or under a database with
    an empty name, the identifier of the load call is the bare table
    name. *)
Theorem getCode_catalog_unqualified
    (sqlCode : DataTable -> string -> option SQLTableContext -> string)
    (logNever : string -> outcome unit)
    (table : DataTable) (ctx : option SQLTableContext) :
  source_type table = "catalog"%string ->
  (forall c, ctx = Some c -> ctx_database c = ""%string) ->
  getCode sqlCode logNever table ctx
  = Returned (interpolate (table_engine table) +:+ ".load_table(" +:+ dquote
              +:+ table_name table +:+ dquote +:+ ")").
Proof.
  intros Hkind Hdb. unfold getCode. rewrite Hkind. cbn [String.eqb].
  change (String.eqb "catalog" "catalog") with true. cbv iota.
  destruct ctx as [c|]; [|reflexivity].
  now rewrite (Hdb c eq_refl).
Qed.

Lemma getCode_catalog_unqualified_witness :
  getCode selectAll logOnly (tableOfKind "catalog" "t") (Some (contextOf ""))
  = Returned ("engine.load_table(" +:+ dquote +:+ "t" +:+ dquote +:+ ")").
Proof.
  apply (getCode_catalog_unqualified selectAll logOnly
           (tableOfKind "catalog" "t") (Some (contextOf ""))).
  - reflexivity.
  - intros c [= <-]. reflexivity.
Defined.

End SnippetMore.

(** ** The search filters *)

Module SearchFacts.
Import JS Search.

Lemma prefix_refl s : String.prefix s s = true.
Proof.
  induction s as [|c s IH]; [reflexivity|].
  simpl. destruct (Ascii.ascii_dec c c); [exact IH|contradiction].
Qed.

Lemma includes_refl s : includes s s = true.
Proof. destruct s as [|c s]; cbn [includes]; now rewrite prefix_refl. Qed.

Section FilterFacts.
Variable toLowerCase : string -> string.

(** X18: under a search, a schema passes the filter of [SchemaList] exactly
    when the filter of its [TableList] leaves a row; without search text
    every schema passes and every table is listed. *)
Theorem schema_shown_iff_table_shown
    (searchValue : nullable string) (schemas : list DatabaseSchema)
    (schema : DatabaseSchema) :
  (In schema (filteredSchemas toLowerCase searchValue schemas) <->
   In schema schemas /\
   (truthy searchValue = false \/
    filteredTables toLowerCase searchValue (schema_tables schema) <> [])) /\
  (truthy searchValue = false ->
   filteredSchemas toLowerCase searchValue schemas = schemas /\
   filteredTables toLowerCase searchValue (schema_tables schema)
   = schema_tables schema).
Proof.
  unfold filteredSchemas, filteredTables.
  destruct searchValue as [| |v]; cbn [truthy].
  - split.
    + rewrite List.filter_In. intuition.
    + intros _. split; apply ConnectionsFacts.filter_all; reflexivity.
  - split.
    + rewrite List.filter_In. intuition.
    + intros _. split; apply ConnectionsFacts.filter_all; reflexivity.
  - destruct (negb (String.eqb v "")) eqn:Hv.
    + cbv beta iota. split; [|discriminate].
      rewrite List.filter_In. split.
      * intros [Hin Hsome]. split; [exact Hin|]. right.
        apply existsb_exists in Hsome as (t & Ht & Hmatch).
        intros Hnone.
        match type of Hnone with
        | List.filter ?f _ = _ =>
            pose proof (proj2 (List.filter_In f t (schema_tables schema))
                          (conj Ht Hmatch)) as Hshown
        end.
        rewrite Hnone in Hshown. exact Hshown.
      * intros [Hin [Hfalse|Hrows]]; [discriminate|]. split; [exact Hin|].
        destruct (List.filter _ (schema_tables schema)) as [|t rest] eqn:Hf;
          [contradiction|].
        match type of Hf with
        | List.filter ?f _ = _ =>
            pose proof (proj1 (List.filter_In f t (schema_tables schema)))
              as Hshown
        end.
        rewrite Hf in Hshown. destruct (Hshown (or_introl eq_refl))
          as [Ht Hmatch].
        apply existsb_exists. now exists t.
    + split.
      * rewrite List.filter_In. intuition.
      * intros _. split; apply ConnectionsFacts.filter_all; reflexivity.
Qed.

(** X19: a table is always found by its own name: searching for the name
    of a table of the list lists that table. *)
Theorem table_found_by_name (tables : list DataTable) (table : DataTable) :
  In table tables ->
  In table (filteredTables toLowerCase (Val (table_name table)) tables).
Proof.
  intros Hin. unfold filteredTables. apply List.filter_In.
  split; [exact Hin|].
  destruct (truthy (Val (table_name table))); [|reflexivity].
  unfold nameMatches. apply includes_refl.
Qed.

End FilterFacts.

Lemma table_found_by_name_witness :
  In (SortedTables.mkTable "Users" Undefined)
    (filteredTables lower (Val "Users") (schema_tables usersSchema)).
Proof.
  apply (table_found_by_name lower (schema_tables usersSchema)
           (SortedTables.mkTable "Users" Undefined)).
  now left.
Defined.

(** The filters at work, with a lower-casing of the letters A to Z: the
    search is blind to case, and a schema without match is left out. *)
Example search_example :
  SchemaList lower (Val "USER") [usersSchema; logsSchema]
  = SchemaItems [usersSchema] /\
  filteredTables lower (Val "USER") (schema_tables usersSchema)
  = [SortedTables.mkTable "Users" Undefined].
Proof. split; reflexivity. Qed.

End SearchFacts.

(** ** [DatasetColumnItem] *)

Module ColumnItemFacts.
Import ColumnItem.

Lemma column_run_snoc history e s :
  run (history ++ [e]) s = step (run history s) e.
Proof. unfold run. now rewrite fold_left_app. Qed.

Lemma lastClose_snoc history e :
  lastClose (history ++ [e])
  = match e with Render b => Some b | Select => lastClose history end.
Proof. unfold lastClose. now rewrite fold_left_app. Qed.

Lemma column_effectDeps_lastClose history :
  effectDeps (run history mount) = lastClose history.
Proof.
  induction history as [|e history IH] using rev_ind; [reflexivity|].
  rewrite column_run_snoc, lastClose_snoc. destruct e as [b|]; cbn [step].
  - unfold render. destruct (Expansion.depsChanged _ b) eqn:E; [reflexivity|].
    unfold Expansion.depsChanged in E.
    destruct (effectDeps (run history mount)) as [b0|]; [|discriminate].
    destruct b0, b; try discriminate; reflexivity.
  - exact IH.
Qed.

(** X20: a column preview closes when [closeAllColumns] becomes true; a
    render with [closeAllColumns] false never changes it, so clearing the
    search reopens nothing; and while [closeAllColumns] stays true a
    selection opens the preview again and it stays open. *)
Theorem column_closes_on_search (history : list event) :
  (lastClose history <> Some true ->
   isExpanded (run (history ++ [Render true]) mount) = false) /\
  isExpanded (run (history ++ [Render false]) mount)
  = isExpanded (run history mount) /\
  (lastClose history = Some true ->
   isExpanded (run (history ++ [Select; Render true]) mount)
   = negb (isExpanded (run history mount))).
Proof.
  repeat split.
  - intros Hlast. rewrite column_run_snoc. cbn [step]. unfold render.
    rewrite column_effectDeps_lastClose.
    destruct (lastClose history) as [[|]|]; [contradiction| |]; reflexivity.
  - rewrite column_run_snoc. cbn [step]. unfold render.
    now destruct (Expansion.depsChanged _ false).
  - intros Hlast. change [Select; Render true] with ([Select] ++ [Render true]).
    rewrite app_assoc, !column_run_snoc. cbn [step]. unfold render.
    cbn [onSelect effectDeps]. rewrite column_effectDeps_lastClose, Hlast.
    reflexivity.
Qed.

(** *** The set of expanded columns *)

Lemma setExpandedColumns_current key expanded a :
  valid a ->
  exists a',
    setExpandedColumns key expanded a = Some a' /\ valid a' /\
    current a'
    = if expanded then current a ∪ {[key]} else current a ∖ {[key]}.
Proof.
  intros [prev Hprev]. unfold setExpandedColumns, current, valid.
  rewrite Hprev.
  destruct expanded; eexists; (split; [reflexivity|]);
    cbn [sets expandedColumnsAtom]; rewrite lookup_insert_eq;
    (split; [now eexists|reflexivity]).
Qed.

Lemma renderRows_current rows :
  forall a, valid a ->
  exists a',
    renderRows rows a = Some a' /\ valid a' /\
    forall key,
      key ∈ current a' <->
      match lastRow key rows with
      | Some expanded => expanded = true
      | None => key ∈ current a
      end.
Proof.
  induction rows as [|[[table column] expanded] rest IH]; intros a Hvalid.
  - exists a. now repeat split.
  - destruct (setExpandedColumns_current (columnKey table column) expanded a
                Hvalid) as (a1 & Hset & Hvalid1 & Hcurrent).
    destruct (IH a1 Hvalid1) as (a' & Hrest & Hvalid' & Hmem).
    exists a'. cbn [renderRows]. rewrite Hset.
    split; [exact Hrest|]. split; [exact Hvalid'|].
    intros key. rewrite Hmem. cbn [lastRow].
    destruct (lastRow key rest) as [later|]; [reflexivity|].
    rewrite Hcurrent. clear.
    destruct (String.eqb_spec (columnKey table column) key) as [->|Hne];
      destruct expanded.
    + rewrite elem_of_union, elem_of_singleton. split; auto.
    + rewrite elem_of_difference, elem_of_singleton.
      split; [intros [_ H]; contradiction|discriminate].
    + rewrite elem_of_union, elem_of_singleton.
      split; [intros [H|H]; [exact H|congruence]|auto].
    + rewrite elem_of_difference, elem_of_singleton.
      split; [tauto|]. intros H. split; [exact H|congruence].
Qed.

(** X21: after a pass over the rows, the set of expanded columns holds a
    key exactly when the last row with that key is expanded, and keeps what
    it held for the keys of no row. The key is the table name and the
    column name: rows of tables of the same name share it, and the later
    row decides. *)
Theorem expanded_columns_last_row_wins (rows : list Row) (a : Atom) :
  is_Some (sets a !! expandedColumnsAtom a) ->
  exists a',
    renderRows rows a = Some a' /\
    forall key,
      key ∈ current a' <->
      match lastRow key rows with
      | Some expanded => expanded = true
      | None => key ∈ current a
      end.
Proof.
  intros Hvalid.
  destruct (renderRows_current rows a Hvalid) as (a' & Hrun & _ & Hmem).
  now exists a'.
Qed.

Lemma expanded_columns_last_row_wins_witness :
  exists a',
    renderRows [ (usersTable, idColumn, true);
                 (usersTable, nameColumn, true);
                 (usersTable, idColumn, false) ] emptyAtom = Some a' /\
    ("users:name"%string ∈ current a' /\ "users:id"%string ∉ current a').
Proof.
  destruct (expanded_columns_last_row_wins
              [ (usersTable, idColumn, true);
                (usersTable, nameColumn, true);
                (usersTable, idColumn, false) ] emptyAtom)
    as (a' & Hrun & Hmem).
  - vm_compute. eauto.
  - exists a'. split; [exact Hrun|]. split.
    + apply (Hmem "users:name"%string). reflexivity.
    + intros Hin. apply (Hmem "users:id"%string) in Hin. discriminate Hin.
Defined.



End ColumnItemFacts.

(** ** The search box and the column previews *)

Module SearchBoxFacts.
Import SearchBox.

Lemma column_render_deps b c :
  ColumnItem.effectDeps (ColumnItem.render b c) = Some b.
Proof.
  unfold ColumnItem.render, Expansion.depsChanged.
  destruct (ColumnItem.effectDeps c) as [b0|] eqn:E; [|reflexivity].
  destruct (Bool.eqb_spec b0 b) as [->|_]; [exact E|reflexivity].
Qed.

Lemma searchBox_committed history b :
  ColumnItem.effectDeps (column (run history (start b)))
  = Some (closeAllColumnsAtom (run history (start b))).
Proof.
  induction history as [|e history IH] using rev_ind.
  - apply column_render_deps.
  - unfold run. rewrite fold_left_app. fold (run history (start b)).
    cbn [fold_left]. destruct e; apply column_render_deps.
Qed.

Lemma searchBox_run_app history later s :
  run (history ++ later) s = run later (run history s).
Proof. unfold run. apply fold_left_app. Qed.

(** X23: search text always comes with [closeAllColumns] on, but the clear
    button empties the text and leaves it on. So typing search text closes
    a preview the user has just opened only if [closeAllColumns] was off:
    after the clear button, a preview opened by hand stays open when the
    user types again. *)
Theorem typing_closes_previews_once
    (history : list event) (closeAllColumns : bool) (value : string) :
  value <> ""%string ->
  let s := run history (start closeAllColumns) in
  (searchValue s <> ""%string -> closeAllColumnsAtom s = true) /\
  closeAllColumnsAtom (run (history ++ [Clear]) (start closeAllColumns))
  = closeAllColumnsAtom s /\
  ColumnItem.isExpanded
    (column (run (history ++ [SelectColumn; Type_ value])
               (start closeAllColumns)))
  = (if closeAllColumnsAtom s
     then negb (ColumnItem.isExpanded (column s))
     else false).
Proof.
  intros Hvalue s. split; [|split].
  - subst s. induction history as [|e history IH] using rev_ind;
      [intros H; now contradiction H|].
    rewrite searchBox_run_app. cbn [run fold_left step].
    destruct e as [v| |]; cbn.
    + destruct v; [intros H; now contradiction H|reflexivity].
    + intros H. now contradiction H.
    + exact IH.
  - rewrite searchBox_run_app. reflexivity.
  - rewrite searchBox_run_app. fold s. cbn [run fold_left step].
    assert (Hlen : (0 <? String.length value)%nat = true)
      by (destruct value; [contradiction|reflexivity]).
    pose proof (searchBox_committed history closeAllColumns) as Hdeps.
    fold s in Hdeps.
    unfold onValueChange, onSelectColumn, rerender.
    cbn [column closeAllColumnsAtom searchValue]. rewrite Hlen.
    destruct (column s) as [expanded deps].
    cbn [ColumnItem.effectDeps] in Hdeps. subst deps.
    destruct (closeAllColumnsAtom s), expanded; reflexivity.
Qed.

Lemma typing_closes_previews_once_witness :
  ColumnItem.isExpanded
    (column (run ([Type_ "a"; Clear] ++ [SelectColumn; Type_ "b"])
               (start false)))
  = true /\
  ColumnItem.isExpanded
    (column (run ([Type_ "a"; Type_ ""] ++ [SelectColumn; Type_ "b"])
               (start false)))
  = false.
Proof.
  split.
  - apply (typing_closes_previews_once [Type_ "a"; Clear] false "b").
    discriminate.
  - apply (typing_closes_previews_once [Type_ "a"; Type_ ""] false "b").
    discriminate.
Defined.

End SearchBoxFacts.
